(** * The support-site crawler of [backend/chatbot/web_crawler.py]

    A shallow embedding of the class [AngelOneWebCrawler]: URL
    normalisation ([normalize_url]), the scope test ([is_support_url]), link
    discovery, page extraction ([scrape_page_content], [clean_text]), the
    breadth-first driver ([crawl_all_support_pages]) and the summary written
    by [save_data] and [main].

    Python strings are modelled as [string]; a character stands for a code
    point below 256.  A Python value that is either [None] or a [str] is an
    [option string].  Python sets of such values are [gset]s, the [deque] is
    a list whose head is the left end.  Python leaves the order in which a
    set is iterated open; the model iterates in the order of [elements]. *)

From Stdlib Require Import ZArith Ascii String List Bool Lia.
From stdpp Require Import base decidable option list sets gmap strings.

Local Open Scope string_scope.
Local Open Scope Z_scope.
Local Open Scope list_scope.

(** ** Exceptions *)

(** A computation that either returns a value or raises a Python exception
    (for the code modelled here: [ValueError] from [urllib.parse]). *)
Inductive exc (A : Type) : Type :=
| Ret (a : A)
| Raise.
Arguments Ret {A} a.
Arguments Raise {A}.

#[global] Instance exc_ret : MRet exc := fun A a => Ret a.

#[global] Instance exc_bind : MBind exc := fun A B k m =>
  match m with
  | Ret a => k a
  | Raise => Raise
  end.

(** ** Characters and strings, as Python's [str] methods see them *)

Module PyStr.

Definition code (c : ascii) : N := N_of_ascii c.

Definition is_upper (c : ascii) : bool := ((65 <=? code c) && (code c <=? 90))%N.
Definition is_lower (c : ascii) : bool := ((97 <=? code c) && (code c <=? 122))%N.
Definition is_digit (c : ascii) : bool := ((48 <=? code c) && (code c <=? 57))%N.

(** [c.isascii() and c.isalpha()] *)
Definition is_ascii_alpha (c : ascii) : bool := is_upper c || is_lower c.

(** [c.isspace()] for code points below 256: TAB..CR, FS..US, space, NEL
    and the no-break space. *)
Definition is_space (c : ascii) : bool :=
  (((9 <=? code c) && (code c <=? 13)) || ((28 <=? code c) && (code c <=? 32))
   || (code c =? 133) || (code c =? 160))%N.

(** [c.lower()] on the characters a scheme can hold. *)
Definition lower_char (c : ascii) : ascii :=
  if is_upper c then ascii_of_N (code c + 32) else c.

Fixpoint map_chars (f : ascii -> ascii) (s : string) : string :=
  match s with
  | EmptyString => EmptyString
  | String c t => String (f c) (map_chars f t)
  end.

(** [s.lower()] *)
Definition lower (s : string) : string := map_chars lower_char s.

Fixpoint forallb_chars (p : ascii -> bool) (s : string) : bool :=
  match s with
  | EmptyString => true
  | String c t => p c && forallb_chars p t
  end.

Fixpoint existsb_chars (p : ascii -> bool) (s : string) : bool :=
  match s with
  | EmptyString => false
  | String c t => p c || existsb_chars p t
  end.

(** [c in s] for a one-character [c] *)
Definition contains (c : ascii) (s : string) : bool :=
  existsb_chars (Ascii.eqb c) s.

(** [s.lstrip(chars)]: drop the longest prefix of characters satisfying [p] *)
Fixpoint drop_while (p : ascii -> bool) (s : string) : string :=
  match s with
  | EmptyString => EmptyString
  | String c t => if p c then drop_while p t else s
  end.

(** [s.rstrip(chars)] *)
Fixpoint drop_while_end (p : ascii -> bool) (s : string) : string :=
  match s with
  | EmptyString => EmptyString
  | String c t =>
      match drop_while_end p t with
      | EmptyString => if p c then EmptyString else String c EmptyString
      | r => String c r
      end
  end.

(** [s.strip()] *)
Definition strip (s : string) : string :=
  drop_while_end is_space (drop_while is_space s).

(** Removing every character that satisfies [p]:
    [s.replace(c, "")] for each such [c]. *)
Fixpoint remove_chars (p : ascii -> bool) (s : string) : string :=
  match s with
  | EmptyString => EmptyString
  | String c t => if p c then remove_chars p t else String c (remove_chars p t)
  end.

(** Cutting [s] at the first character that satisfies [p]: with [i] the
    index of that character, the result is [(s[:i], s[i:])]; when there is
    none it is [(s, "")]. *)
Fixpoint break (p : ascii -> bool) (s : string) : string * string :=
  match s with
  | EmptyString => (EmptyString, EmptyString)
  | String c t =>
      if p c then (EmptyString, s)
      else let '(h, r) := break p t in (String c h, r)
  end.

(** Cutting [s] at the last occurrence of [c]: [Some (s[:j], s[j:])] with
    [j = s.rfind(c)], and [None] when [c] does not occur. *)
Fixpoint rbreak (c : ascii) (s : string) : option (string * string) :=
  match s with
  | EmptyString => None
  | String a t =>
      match rbreak c t with
      | Some (h, r) => Some (String a h, r)
      | None => if Ascii.eqb a c then Some (EmptyString, s) else None
      end
  end.

(** [s[1:]] *)
Definition tail (s : string) : string :=
  match s with
  | EmptyString => EmptyString
  | String _ t => t
  end.

(** [s[:-1]] *)
Fixpoint drop_last (s : string) : string :=
  match s with
  | EmptyString => EmptyString
  | String c EmptyString => EmptyString
  | String c t => String c (drop_last t)
  end.

(** [s.endswith(c)] for a one-character [c] *)
Fixpoint ends_with (c : ascii) (s : string) : bool :=
  match s with
  | EmptyString => false
  | String a EmptyString => Ascii.eqb a c
  | String _ t => ends_with c t
  end.

(** [s.startswith(p)] *)
Definition starts_with (p s : string) : bool := String.prefix p s.

(** [s.split(c)] for a one-character separator: never an empty list. *)
Fixpoint split (c : ascii) (s : string) : list string :=
  match s with
  | EmptyString => [EmptyString]
  | String a t =>
      if Ascii.eqb a c then EmptyString :: split c t
      else match split c t with
           | [] => [String a EmptyString]
           | l :: ls => String a l :: ls
           end
  end.

(** [sep.join(ls)] *)
Definition join (sep : string) (ls : list string) : string :=
  String.concat sep ls.

(** [len(s)] *)
Definition len (s : string) : Z := Z.of_nat (String.length s).

(** The truth value of a string: [bool(s)] *)
Definition truthy (s : string) : bool :=
  match s with
  | EmptyString => false
  | _ => true
  end.

(** The first character is not white space. *)
Definition starts_nonspace (s : string) : bool :=
  match s with
  | EmptyString => false
  | String c _ => negb (is_space c)
  end.

(** The last character is not white space. *)
Fixpoint ends_nonspace (s : string) : bool :=
  match s with
  | EmptyString => false
  | String c EmptyString => negb (is_space c)
  | String _ t => ends_nonspace t
  end.

(** Non-empty, with no white space at either end: what [strip] leaves
    alone. *)
Definition tight (s : string) : bool := starts_nonspace s && ends_nonspace s.

End PyStr.

(** ** [urllib.parse.urlparse]

    The library function the crawler normalises URLs with, after CPython
    3.11's [urllib/parse.py]: [urlsplit] followed by the parameter split of
    [urlparse].  The cache and the bytes/str coercion have no effect on the
    result and are left out; [_checknetloc] only rejects characters whose
    NFKC form contains a delimiter, and no code point below 256 has one. *)

Module UrlParse.
Import PyStr.

Record ParseResult : Type := mkParseResult {
  scheme : string;
  netloc : string;
  path : string;
  params : string;
  query : string;
  fragment : string
}.

(** [scheme_chars]: letters, digits and [+-.] *)
Definition is_scheme_char (c : ascii) : bool :=
  is_ascii_alpha c || is_digit c
  || Ascii.eqb c "+" || Ascii.eqb c "-" || Ascii.eqb c ".".

(** [_WHATWG_C0_CONTROL_OR_SPACE] *)
Definition is_c0_control_or_space (c : ascii) : bool := (code c <=? 32)%N.

(** [_UNSAFE_URL_BYTES_TO_REMOVE]: TAB, CR and LF *)
Definition is_unsafe_url_byte (c : ascii) : bool :=
  ((code c =? 9) || (code c =? 13) || (code c =? 10))%N.

Definition is_netloc_delim (c : ascii) : bool :=
  Ascii.eqb c "/" || Ascii.eqb c "?" || Ascii.eqb c "#".

(** [uses_params] *)
Definition uses_params : list string :=
  [""; "ftp"; "hdl"; "prospero"; "http"; "imap"; "https"; "shttp"; "rtsp";
   "rtspu"; "sip"; "sips"; "mms"; "sftp"; "tel"].

Definition string_in (s : string) (l : list string) : bool :=
  existsb (String.eqb s) l.

(** The scheme of [url] and what follows its colon; the scheme is [""] and
    the url unchanged when the text before the first colon is not a scheme. *)
Definition split_scheme (url : string) : string * string :=
  let '(pre, rest) := break (Ascii.eqb ":") url in
  match rest, pre with
  | String _ after, String c0 _ =>
      if is_ascii_alpha c0 && forallb_chars is_scheme_char pre
      then (lower pre, after)
      else (EmptyString, url)
  | _, _ => (EmptyString, url)
  end.

(** [url[2:]] when [url[:2] == '//'] *)
Definition after_double_slash (url : string) : option string :=
  match url with
  | String c1 (String c2 r) =>
      if Ascii.eqb c1 "/" && Ascii.eqb c2 "/" then Some r else None
  | _ => None
  end.

(** [netloc.rpartition('@')[2]] *)
Definition after_last_at (s : string) : string :=
  match rbreak "@" s with
  | Some (_, r) => tail r
  | None => s
  end.

Section Bracketed.

(** [_check_bracketed_host] validates the text between square brackets as
    an IPv6 or IPvFuture literal with Python's [ipaddress] module.  It is a
    library function outside the crawler and stays a parameter: [true]
    stands for "returns", [false] for "raises ValueError". *)
Variable check_bracketed_host : string -> bool.

(** [_check_bracketed_netloc]: [true] when it returns, [false] when it
    raises. *)
Definition check_bracketed_netloc (nl : string) : bool :=
  let hostname_and_port := after_last_at nl in
  let '(before_bracket, r) := break (Ascii.eqb "[") hostname_and_port in
  match r with
  | String _ bracketed =>
      if truthy before_bracket then false
      else
        let '(hostname, r2) := break (Ascii.eqb "]") bracketed in
        let port := tail r2 in
        if truthy port && negb (starts_with ":" port) then false
        else check_bracketed_host hostname
  | EmptyString =>
      let '(hostname, _) := break (Ascii.eqb ":") hostname_and_port in
      check_bracketed_host hostname
  end.

(** The two bracket tests [urlsplit] runs on a network location. *)
Definition netloc_ok (nl : string) : bool :=
  let lb := contains "[" nl in
  let rb := contains "]" nl in
  if (lb && negb rb) || (rb && negb lb) then false
  else if lb && rb then check_bracketed_netloc nl
  else true.

(** [url.split(c, 1)] when [c] occurs in [url], else [(url, "")] *)
Definition split_once (c : ascii) (url : string) : string * string :=
  let '(h, r) := break (Ascii.eqb c) url in (h, tail r).

(** [urlsplit(url)] with the default arguments; the result is the tuple
    [(scheme, netloc, path, query, fragment)]. *)
Definition urlsplit (url : string)
  : exc (string * string * string * string * string) :=
  let url := drop_while is_c0_control_or_space url in
  let url := remove_chars is_unsafe_url_byte url in
  let '(sch, url) := split_scheme url in
  '(nl, url) ← match after_double_slash url with
               | Some r =>
                   let '(nl, rest) := break is_netloc_delim r in
                   if netloc_ok nl then Ret (nl, rest) else Raise
               | None => Ret (EmptyString, url)
               end;
  let '(url, frag) := split_once "#" url in
  let '(url, qry) := split_once "?" url in
  Ret (sch, nl, url, qry, frag).

(** [_splitparams]; [urlparse] calls it only on a url that holds a
    semicolon. *)
Definition splitparams (url : string) : string * string :=
  match rbreak "/" url with
  | Some (h, seg) =>
      let '(p, r) := break (Ascii.eqb ";") seg in
      match r with
      | EmptyString => (url, EmptyString)
      | String _ ps => (h +:+ p, ps)
      end
  | None => split_once ";" url
  end.

(** [urlparse(url)] *)
Definition urlparse (url : string) : exc ParseResult :=
  '(sch, nl, url, qry, frag) ← urlsplit url;
  let '(url, prm) :=
    if string_in sch uses_params && contains ";" url
    then splitparams url
    else (url, EmptyString) in
  Ret (mkParseResult sch nl url prm qry frag).

End Bracketed.

(** The characters of a lower-case scheme. *)
Definition is_lower_scheme_char (c : ascii) : bool :=
  is_lower c || is_digit c
  || Ascii.eqb c "+" || Ascii.eqb c "-" || Ascii.eqb c ".".

(** A scheme as [urlsplit] returns it when it finds one: a lower-case
    letter followed by lower-case scheme characters. *)
Definition wf_scheme (s : string) : bool :=
  match s with
  | EmptyString => false
  | String c0 _ => is_lower c0 && forallb_chars is_lower_scheme_char s
  end.

(** A path as it follows a network location: empty, or led by a slash. *)
Definition rooted (p : string) : bool :=
  match p with
  | EmptyString => true
  | String c _ => Ascii.eqb c "/"
  end.

(** The text after the last slash (all of it when there is none). *)
Definition last_segment (s : string) : string :=
  match rbreak "/" s with
  | Some (_, seg) => tail seg
  | None => s
  end.

End UrlParse.

(** ** The crawler *)

Module Crawler.
Import PyStr UrlParse.

(** A value that is [None] or a [str]: the URLs the crawler passes around. *)
Abbreviation pyurl := (option string).

(** The dictionary [scrape_page_content] returns for a page.  Its
    ['timestamp'] entry, the float [time.time()], is left out. *)
Record PageRecord : Type := mkPageRecord {
  url : pyurl;
  title : string;
  content : string;
  content_length : Z;
  source_type : string
}.

(** The attributes of an [AngelOneWebCrawler] the crawl reads and writes.
    [driver] tells whether the Chrome driver could be set up
    ([self.driver] is not [None]). *)
Record crawler : Type := mkCrawler {
  base_url : pyurl;
  max_pages : Z;
  visited_urls : gset pyurl;
  scraped_data : list PageRecord;
  url_queue : list pyurl;
  failed_urls : gset pyurl;
  driver : bool
}.

(** [AngelOneWebCrawler(base_url, max_pages)] *)
Definition init (base : pyurl) (maxp : Z) (drv : bool) : crawler :=
  mkCrawler base maxp ∅ [] [base] ∅ drv.

Definition set_queue (q : list pyurl) (st : crawler) : crawler :=
  mkCrawler (base_url st) (max_pages st) (visited_urls st) (scraped_data st)
            q (failed_urls st) (driver st).

Definition add_visited (u : pyurl) (st : crawler) : crawler :=
  mkCrawler (base_url st) (max_pages st) ({[u]} ∪ visited_urls st)
            (scraped_data st) (url_queue st) (failed_urls st) (driver st).

Definition add_failed (u : pyurl) (st : crawler) : crawler :=
  mkCrawler (base_url st) (max_pages st) (visited_urls st) (scraped_data st)
            (url_queue st) ({[u]} ∪ failed_urls st) (driver st).

Definition append_data (r : PageRecord) (st : crawler) : crawler :=
  mkCrawler (base_url st) (max_pages st) (visited_urls st)
            (scraped_data st ++ [r]) (url_queue st) (failed_urls st)
            (driver st).

(** What the HTML parser and [html2text] make of a document, after the
    non-content elements are removed: the text of the title element, for a
    selector the converted text of the first element that matches it, and
    the converted text of the body. *)
Record PageContent : Type := mkPageContent {
  page_title : option string;
  select_one : string -> option string;
  page_body : option string
}.

(** What the static fetch of a page produces inside
    [scrape_page_content]: an exception before the document is parsed, or
    the list of [urljoin(url, href)] over the anchors of the document, in
    document order, with what the later extraction steps produce
    ([Raise] when one of them raises). *)
Inductive response : Type :=
| FetchError
| Fetched (anchors : list pyurl) (doc : exc PageContent).

(** The world outside the crawler. *)
Record Web : Type := mkWeb {
  (** [session.get] and the parser, per URL *)
  http_get : pyurl -> response;
  (** the DOM the Chrome driver shows for a URL; [Raise] when the driver
      raises or the wait for the body times out *)
  render : pyurl -> exc PageContent;
  (** the anchors of the seed page as the static pass of the discovery
      sees them, [None] when the request raises *)
  seed_static : option (list pyurl);
  (** the anchors of the seed page after scrolling and expanding in the
      driver, [None] when that pass raises *)
  seed_rendered : option (list pyurl)
}.

Section WithWorld.

Variable check_bracketed_host : string -> bool.
Variable web : Web.

Definition is_truthy (u : pyurl) : bool :=
  match u with
  | Some s => truthy s
  | None => false
  end.

(** [normalize_url]: "Remove fragments and query params to get the base URL" *)
Definition normalize_url (u : pyurl) : exc pyurl :=
  match u with
  | Some (String _ _ as s) =>
      parsed ← urlparse check_bracketed_host s;
      let normalized :=
        scheme parsed +:+ "://" +:+ netloc parsed +:+ path parsed in
      let normalized :=
        if ends_with "/" normalized && (1 <? len normalized)
        then drop_last normalized
        else normalized in
      Ret (Some normalized)
  | _ => Ret None
  end.

(** [is_support_url]: "Check if URL is a valid AngelOne support page" *)
Definition is_support_url (st : crawler) (u : pyurl) : exc bool :=
  if negb (is_truthy u) then Ret false
  else
    normalized_url ← normalize_url u;
    match normalized_url with
    | Some (String _ _ as n) =>
        if bool_decide (normalized_url ∈ visited_urls st) then Ret false
        else
          parsed ← urlparse check_bracketed_host n;
          Ret (String.eqb (netloc parsed) "www.angelone.in"
               && starts_with "/support" (path parsed)
               && negb (bool_decide (normalized_url ∈ failed_urls st)))
    | _ => Ret false
    end.

(** The loop both discovery passes and [extract_support_links_from_page]
    run over the anchors: normalise, test, add.  The set collected so far
    is returned together with whether the loop ran to its end. *)
Fixpoint collect_links (st : crawler) (anchors : list pyurl)
    (links : gset pyurl) : gset pyurl * exc unit :=
  match anchors with
  | [] => (links, Ret tt)
  | full_url :: more =>
      match normalize_url full_url with
      | Raise => (links, Raise)
      | Ret normalized_url =>
          match is_support_url st normalized_url with
          | Raise => (links, Raise)
          | Ret true => collect_links st more ({[normalized_url]} ∪ links)
          | Ret false => collect_links st more links
          end
      end
  end.

(** [discover_all_support_links]: an exception inside a pass ends that
    pass and keeps the links found so far. *)
Definition discover_all_support_links (st : crawler) : list pyurl :=
  let all_links : gset pyurl := ∅ in
  let all_links :=
    match seed_static web with
    | Some anchors => fst (collect_links st anchors all_links)
    | None => all_links
    end in
  let all_links :=
    if driver st then
      match seed_rendered web with
      | Some anchors => fst (collect_links st anchors all_links)
      | None => all_links
      end
    else all_links in
  elements all_links.

(** [extract_support_links_from_page] *)
Definition extract_support_links_from_page (st : crawler)
    (anchors : list pyurl) : exc (gset pyurl) :=
  match collect_links st anchors ∅ with
  | (links, Ret _) => Ret links
  | (_, Raise) => Raise
  end.

(** [[self.normalize_url(u) for u in self.url_queue]] *)
Fixpoint normalized_queue (q : list pyurl) : exc (list pyurl) :=
  match q with
  | [] => Ret []
  | u :: q' =>
      n ← normalize_url u;
      ns ← normalized_queue q';
      Ret (n :: ns)
  end.

(** [clean_text]: "Clean and normalize text content" *)
Definition clean_text (text : string) : string :=
  if negb (truthy text) then ""
  else
    let lines := split "010" text in
    let cleaned_lines :=
      List.filter (fun line => truthy line && (3 <? len line))
             (List.map strip lines) in
    join (String "010" "") cleaned_lines.

(** The selector loops of [scrape_page_content] and
    [scrape_with_selenium]: the first selector that matches wins. *)
Fixpoint first_selected (sel : string -> option string)
    (selectors : list string) : option string :=
  match selectors with
  | [] => None
  | selector :: more =>
      match sel selector with
      | Some text => Some text
      | None => first_selected sel more
      end
  end.

Definition rendered_selectors : list string :=
  [".support-content"; ".help-content"; ".faq-content";
   ".article-content"; ".main-content"; ".content";
   "main"; "article"].

Definition content_selectors : list string :=
  rendered_selectors ++ [".container .row"; ".container"].

(** [scrape_with_selenium]: "Scrape content using Selenium for dynamic
    pages" *)
Definition scrape_with_selenium (st : crawler) (u : pyurl) : string :=
  if negb (driver st) then ""
  else
    match render web u with
    | Raise => ""
    | Ret doc =>
        match first_selected (select_one doc) rendered_selectors with
        | Some text => clean_text text
        | None =>
            match page_body doc with
            | Some text => clean_text text
            | None => ""
            end
        end
    end.

(** The loop of [scrape_page_content] that appends the new links of a page
    to the queue.  The list of normalised queue entries is rebuilt for
    every link that is not visited; normalising an entry can raise. *)
Fixpoint enqueue_links (st : crawler) (new_links : list pyurl)
    : crawler * exc unit :=
  match new_links with
  | [] => (st, Ret tt)
  | link :: more =>
      if bool_decide (link ∈ visited_urls st) then enqueue_links st more
      else
        match normalized_queue (url_queue st) with
        | Raise => (st, Raise)
        | Ret queued =>
            if bool_decide (link ∈ queued) then enqueue_links st more
            else enqueue_links (set_queue (url_queue st ++ [link]) st) more
        end
  end.

(** The text [scrape_page_content] takes from the statically fetched
    document: selector cascade, then the body when that gave nothing. *)
Definition static_content (doc : PageContent) : string :=
  let content_text :=
    match first_selected (select_one doc) content_selectors with
    | Some text => text
    | None => ""
    end in
  if negb (truthy content_text) then
    match page_body doc with
    | Some text => text
    | None => content_text
    end
  else content_text.

(** The "Try Selenium if content is insufficient" step. *)
Definition with_rendered_fallback (st : crawler) (u : pyurl)
    (content_text : string) : string :=
  if (len content_text <? 200) && driver st then
    let selenium_content := scrape_with_selenium st u in
    if truthy selenium_content && (len content_text <? len selenium_content)
    then selenium_content
    else content_text
  else content_text.

(** [scrape_page_content]: "Scrape content from a support page".  Every
    exception raised inside its [try] ends in the handler that adds the URL
    to [failed_urls] and returns [None]. *)
Definition scrape_page_content (st : crawler) (u : pyurl)
    : crawler * option PageRecord :=
  match http_get web u with
  | FetchError => (add_failed u st, None)
  | Fetched anchors doc =>
      match extract_support_links_from_page st anchors with
      | Raise => (add_failed u st, None)
      | Ret new_links =>
          match enqueue_links st (elements new_links) with
          | (st, Raise) => (add_failed u st, None)
          | (st, Ret _) =>
              match doc with
              | Raise => (add_failed u st, None)
              | Ret doc =>
                  let title :=
                    match page_title doc with
                    | Some t => strip t
                    | None => ""
                    end in
                  let content_text := clean_text (static_content doc) in
                  let content_text := with_rendered_fallback st u content_text in
                  if truthy content_text && (50 <? len (strip content_text))
                  then (st, Some (mkPageRecord u title content_text
                                    (len content_text) "support_page"))
                  else (st, None)
              end
          end
      end
  end.

(** How a run of the crawl ends: it returns (the local [scraped_count] is
    kept for the statements about the cap), an exception leaves it, or the
    operator interrupts it ([KeyboardInterrupt]) while the loop is still
    running.  Each carries the crawler object as it then is. *)
Inductive outcome : Type :=
| Returned (st : crawler) (scraped_count : Z)
| Raised (st : crawler)
| Interrupted (st : crawler) (scraped_count : Z).

(** The test of the [while] loop. *)
Definition loop_test (st : crawler) (scraped_count : Z) : bool :=
  match url_queue st with
  | [] => false
  | _ :: _ => scraped_count <? max_pages st
  end.

(** One run of the body of the [while] loop.  [popleft] raises on an empty
    deque (the loop test excludes it), and so can [normalize_url]. *)
Definition loop_body (st : crawler) (scraped_count : Z) : crawler * exc Z :=
  match url_queue st with
  | [] => (st, Raise)
  | u :: rest =>
      let st := set_queue rest st in
      match normalize_url u with
      | Raise => (st, Raise)
      | Ret normalized_url =>
          if bool_decide (normalized_url ∈ visited_urls st)
          then (st, Ret scraped_count)
          else
            let '(st, content) := scrape_page_content st normalized_url in
            let '(st, scraped_count) :=
              match content with
              | Some record => (append_data record st, scraped_count + 1)
              | None => (st, scraped_count)
              end in
            (add_visited normalized_url st, Ret scraped_count)
      end
  end.

(** The [while] loop of [crawl_all_support_pages].  [patience] is the
    number of iterations the operator lets pass before interrupting. *)
Fixpoint crawl_loop (patience : nat) (st : crawler) (scraped_count : Z)
    : outcome :=
  if loop_test st scraped_count then
    match patience with
    | O => Interrupted st scraped_count
    | S patience' =>
        match loop_body st scraped_count with
        | (st', Raise) => Raised st'
        | (st', Ret scraped_count') => crawl_loop patience' st' scraped_count'
        end
    end
  else Returned st scraped_count.

(** "Add discovered links to queue (normalized)" *)
Fixpoint add_discovered (st : crawler) (discovered_links : list pyurl)
    : crawler * exc unit :=
  match discovered_links with
  | [] => (st, Ret tt)
  | link :: more =>
      match normalize_url link with
      | Raise => (st, Raise)
      | Ret normalized_link =>
          if is_truthy normalized_link then
            match normalized_queue (url_queue st) with
            | Raise => (st, Raise)
            | Ret queued =>
                if bool_decide (normalized_link ∈ queued)
                then add_discovered st more
                else add_discovered
                       (set_queue (url_queue st ++ [normalized_link]) st) more
            end
          else add_discovered st more
      end
  end.

(** "Remove duplicates from queue" *)
Fixpoint unique_queue (q : list pyurl) (seen : gset pyurl)
    : exc (list pyurl) :=
  match q with
  | [] => Ret []
  | u :: more =>
      normalized ← normalize_url u;
      if is_truthy normalized && negb (bool_decide (normalized ∈ seen))
      then
        uq ← unique_queue more ({[normalized]} ∪ seen);
        Ret (normalized :: uq)
      else unique_queue more seen
  end.

(** [crawl_all_support_pages]: "Crawl all discovered support pages" *)
Definition crawl_all_support_pages (patience : nat) (st : crawler) : outcome :=
  let discovered_links := discover_all_support_links st in
  match add_discovered st discovered_links with
  | (st, Raise) => Raised st
  | (st, Ret _) =>
      match unique_queue (url_queue st) ∅ with
      | Raise => Raised st
      | Ret uq => crawl_loop patience (set_queue uq st) 0
      end
  end.

End WithWorld.

(** The ["crawl_info"] entry of the summary; the float
    ["crawl_timestamp"] is left out. *)
Record CrawlInfo : Type := mkCrawlInfo {
  info_base_url : pyurl;
  total_pages_scraped : Z;
  total_content_size : Z;
  failed_urls_count : Z
}.

Record Summary : Type := mkSummary {
  crawl_info : CrawlInfo;
  support_pages : list PageRecord;
  summary_failed_urls : list pyurl
}.

Fixpoint sum_content (data : list PageRecord) : Z :=
  match data with
  | [] => 0
  | item :: more => len (content item) + sum_content more
  end.

(** [save_data]: the summary it builds and dumps to the file. *)
Definition save_data (st : crawler) : Summary :=
  mkSummary
    (mkCrawlInfo (base_url st)
       (Z.of_nat (List.length (scraped_data st)))
       (sum_content (scraped_data st))
       (Z.of_nat (size (failed_urls st))))
    (scraped_data st)
    (elements (failed_urls st)).

(** [main], from the end of the crawl on: the summary that reaches the
    file, if any.  [save_data] is called after [crawl_all_support_pages]
    returns; the handlers of [KeyboardInterrupt] and [Exception] print a
    message, and the [finally] clause closes the driver. *)
Definition main_saves (o : outcome) : option Summary :=
  match o with
  | Returned st _ => Some (save_data st)
  | Raised _ => None
  | Interrupted _ _ => None
  end.

(** [main]: "Main function to run the focused support scraper" *)
Definition main (check_bracketed_host : string -> bool) (web : Web)
    (drv : bool) (patience : nat) : option Summary :=
  let scraper := init (Some "https://www.angelone.in/support") 1000 drv in
  main_saves (crawl_all_support_pages check_bracketed_host web patience scraper).

End Crawler.

(** ** Notions the statements about the crawl are phrased with *)

Module CrawlSpec.
Import PyStr UrlParse Crawler.

(** The string [normalize_url] puts together from a parse result. *)
Definition rebuilt (r : ParseResult) : string :=
  scheme r +:+ "://" +:+ netloc r +:+ path r.

(** Without its last character when that is a slash. *)
Definition strip_slash (s : string) : string :=
  if ends_with "/" s then drop_last s else s.

(** The crawler object a run leaves behind. *)
Definition state_of (o : outcome) : crawler :=
  match o with
  | Returned st _ => st
  | Raised st => st
  | Interrupted st _ => st
  end.

Definition interrupted (o : outcome) : bool :=
  match o with
  | Interrupted _ _ => true
  | _ => false
  end.

(** The URLs of the page records collected so far, in order. *)
Definition scraped_urls (st : crawler) : list pyurl :=
  List.map url (scraped_data st).

(** What a step that only touches the queue leaves alone. *)
Definition same_but_queue (st st' : crawler) : Prop :=
  base_url st' = base_url st /\ max_pages st' = max_pages st /\
  visited_urls st' = visited_urls st /\ scraped_data st' = scraped_data st /\
  failed_urls st' = failed_urls st /\ driver st' = driver st.

(** The relation between the three collections that every iteration of
    the driver loop maintains. *)
Record consistent (st : crawler) : Prop := mkConsistent {
  failed_visited : failed_urls st ⊆ visited_urls st;
  scraped_visited : forall u, u ∈ scraped_urls st -> u ∈ visited_urls st;
  scraped_nodup : NoDup (scraped_urls st)
}.

(** The text a page ends up with: the cleaned static text, or the rendered
    one when the fallback takes it. *)
Definition page_text (web : Web) (st : crawler) (u : pyurl)
    (doc : PageContent) : string :=
  with_rendered_fallback web st u (clean_text (static_content doc)).

(** A set [V] bounds a site when every link of every page, normalised as
    it is when harvested and once more when popped, lies in [V]. *)
Definition bounded_site (chk : string -> bool) (web : Web) (V : gset pyurl)
    : Prop :=
  forall u anchors doc a l n,
    http_get web u = Fetched anchors doc ->
    a ∈ anchors ->
    normalize_url chk a = Ret l ->
    normalize_url chk l = Ret n ->
    n ∈ V.

(** Every queue entry, when normalised at pop time, lies in [V]. *)
Definition queue_in (chk : string -> bool) (V : gset pyurl) (st : crawler)
    : Prop :=
  forall x n, x ∈ url_queue st -> normalize_url chk x = Ret n -> n ∈ V.

(** The normal forms the entries of a queue have. *)
Definition queue_forms (chk : string -> bool) (q : list pyurl) : gset pyurl :=
  list_to_set (omap (fun x => match normalize_url chk x with
                              | Ret n => Some n
                              | Raise => None
                              end) q).

(** Whether some statement inside the [try] of [scrape_page_content]
    raises for [u]: the request or the parser, the link harvest, the
    queue test, or the extraction of the content. *)
Definition try_raises (chk : string -> bool) (web : Web) (st : crawler)
    (u : pyurl) : bool :=
  match http_get web u with
  | FetchError => true
  | Fetched anchors doc =>
      match extract_support_links_from_page chk st anchors with
      | Raise => true
      | Ret new_links =>
          match enqueue_links chk st (elements new_links) with
          | (_, Raise) => true
          | (_, Ret _) =>
              match doc with
              | Raise => true
              | Ret _ => false
              end
          end
      end
  end.

End CrawlSpec.

(** ** Further notions, for the statements beyond the claims *)

Module MoreSpec.
Import PyStr UrlParse Crawler CrawlSpec.

(** The test [clean_text] puts to a stripped line:
    [line and len(line) > 3]. *)
Definition kept (line : string) : bool := truthy line && (3 <? len line).

(** A scheme as it may be written in a URL: a letter followed by scheme
    characters, in either case. *)
Definition valid_scheme (s : string) : bool :=
  match s with
  | EmptyString => false
  | String c0 _ => is_ascii_alpha c0 && forallb_chars is_scheme_char s
  end.

(** What every page record of the crawler satisfies: its length entry is
    the length of its content, the content has more than 50 characters and no
    white space at either end, and the source tag is the fixed one. *)
Definition record_ok (rec : PageRecord) : Prop :=
  content_length rec = len (content rec) /\
  50 < len (content rec) /\
  strip (content rec) = content rec /\
  source_type rec = "support_page".

(** Beyond [consistent]: every record is well formed, and no URL of a
    record is in the failed set. *)
Record sound (st : crawler) : Prop := mkSound {
  sound_consistent : consistent st;
  sound_records : Forall record_ok (scraped_data st);
  sound_apart : forall u, u ∈ scraped_urls st -> u ∉ failed_urls st
}.

(** [sum(item['content_length'] for item in data)] *)
Fixpoint sum_content_length (data : list PageRecord) : Z :=
  match data with
  | [] => 0
  | item :: more => content_length item + sum_content_length more
  end.

(** The crawler object with [self.driver] set or cleared. *)
Definition with_driver (drv : bool) (st : crawler) : crawler :=
  mkCrawler (base_url st) (max_pages st) (visited_urls st) (scraped_data st)
            (url_queue st) (failed_urls st) drv.

(** The scroll loop of [discover_all_support_links]: "Scroll to load all
    content".  [height k] is what the [k]-th reading of
    [document.body.scrollHeight] returns, the reading before the loop being
    the one numbered 0.  The loop scrolls, reads, and leaves when the
    reading equals the one before; the result is the number of scrolls made.
    [None] stands for a loop still running after [fuel] scrolls. *)
Fixpoint scroll_to_bottom (fuel : nat) (height : nat -> Z) (k : nat)
    (last_height : Z) : option nat :=
  match fuel with
  | O => None
  | S fuel' =>
      let new_height := height (S k) in
      if new_height =? last_height then Some (S k)
      else scroll_to_bottom fuel' height (S k) new_height
  end.

End MoreSpec.

(** ** Concrete sites and pages the statements are tried on *)

Module Scenarios.
Import PyStr UrlParse Crawler CrawlSpec.

(** A [check_bracketed_host] that lets every bracketed host pass.  None of
    the URLs below has a bracket, so the choice does not matter. *)
Definition accept_bracketed_host : string -> bool := fun _ => true.

Definition support : string := "https://www.angelone.in/support".

Definition faq : string := "https://www.angelone.in/support/faq".

Fixpoint repeat_char (c : ascii) (n : nat) : string :=
  match n with
  | O => EmptyString
  | S n' => String c (repeat_char c n')
  end.

(** A document with a title and a body in which no content selector
    matches anything. *)
Definition plain_doc (text : string) : PageContent :=
  mkPageContent (Some "Help") (fun _ => None) (Some text).

(** Nothing can be fetched. *)
Definition offline : Web :=
  mkWeb (fun _ => FetchError) (fun _ => Raise) None None.

(** Every page is a lone line of fifty characters. *)
Definition fifty : Web :=
  mkWeb (fun _ => Fetched [] (Ret (plain_doc (repeat_char "a" 50))))
        (fun _ => Raise) None None.

(** Every page has 150 characters of static text and 400 characters once
    rendered. *)
Definition dynamic : Web :=
  mkWeb (fun _ => Fetched [] (Ret (plain_doc (repeat_char "a" 150))))
        (fun _ => Ret (plain_doc (repeat_char "b" 400))) None None.

(** A small site: every page links to the same six pages, the request for
    one of them fails, and each of the others is a line of sixty
    characters. *)
Definition small_site_links : list pyurl :=
  [Some "https://www.angelone.in/support/a";
   Some "https://www.angelone.in/support/b/";
   Some "https://www.angelone.in/support/broken";
   Some "https://www.angelone.in/support/c?page=2";
   Some "https://www.angelone.in/support/d#top";
   Some "https://www.angelone.in/about"].

Definition small_site : Web :=
  mkWeb (fun u =>
           if bool_decide (u = Some "https://www.angelone.in/support/broken")
           then FetchError
           else Fetched small_site_links
                  (Ret (plain_doc (repeat_char "a" 60))))
        (fun _ => Raise) (Some small_site_links) None.

(** A site that is a chain: the seed page links to a page and to a URL
    whose request fails, the page links to a second one, and that one to a
    third.  Each page that can be fetched is a line of sixty characters.  In
    whichever order the two links of the seed page are queued, the first
    four iterations of the driver loop scrape three pages and meet the one
    failure, and the third page is still in the queue. *)
Definition chain_links (u : pyurl) : list pyurl :=
  if bool_decide (u = Some "https://www.angelone.in/support")
  then [Some "https://www.angelone.in/support/one";
        Some "https://www.angelone.in/support/broken"]
  else if bool_decide (u = Some "https://www.angelone.in/support/one")
  then [Some "https://www.angelone.in/support/two"]
  else if bool_decide (u = Some "https://www.angelone.in/support/two")
  then [Some "https://www.angelone.in/support/three"]
  else [].

Definition chain : Web :=
  mkWeb (fun u =>
           if bool_decide (u = Some "https://www.angelone.in/support/broken")
           then FetchError
           else Fetched (chain_links u) (Ret (plain_doc (repeat_char "a" 60))))
        (fun _ => Raise)
        (Some (chain_links (Some "https://www.angelone.in/support")))
        None.

(** The normal forms of the links of [small_site]. *)
Definition small_site_urls : gset pyurl :=
  list_to_set
    [Some "https://www.angelone.in/support/a";
     Some "https://www.angelone.in/support/b";
     Some "https://www.angelone.in/support/broken";
     Some "https://www.angelone.in/support/c";
     Some "https://www.angelone.in/support/d";
     Some "https://www.angelone.in/about"].

End Scenarios.

(** ** Further concrete inputs *)

Module MoreScenarios.
Import PyStr UrlParse Crawler CrawlSpec MoreSpec Scenarios.

(** A page whose second anchor has an opening bracket without a closing
    one in its network location: [urlparse] raises on it. *)
Definition bad_anchor : Web :=
  mkWeb (fun _ => Fetched [Some faq; Some "http://[::1/x"]
                    (Ret (plain_doc (repeat_char "a" 60))))
        (fun _ => Raise) None None.

(** A queue with a repeated page, an empty entry and a fragment. *)
Definition messy_queue : list pyurl :=
  [Some "https://www.angelone.in/support/";
   Some "https://www.angelone.in/support";
   Some "";
   Some "https://www.angelone.in/support/faq#top"].

(** Three lines, the middle one too short to be kept. *)
Definition three_lines : string :=
  "  first line  " +:+ String "010" ("ab" +:+ String "010" " last line").

(** A page that grows by 500 pixels with each of the first three scrolls
    and then stays at 2000. *)
Definition growing_page (k : nat) : Z := 500 + 500 * Z.of_nat (Nat.min k 3).

(** The record of a page that is one line of sixty characters. *)
Definition sixty_record (u : string) : PageRecord :=
  mkPageRecord (Some u) "Help" (repeat_char "a" 60) 60 "support_page".

End MoreScenarios.

(** * Properties of the string functions *)

Module PyStrProps.
Import PyStr.

#[local] Arguments String.append !_ _ : simpl nomatch.

Lemma len_nonneg s : 0 <= len s.
Proof. unfold len. lia. Qed.

Lemma len_app s t : len (s +:+ t) = len s + len t.
Proof.
  unfold len. induction s as [|c s IH]; simpl String.length; [done|].
  simpl in IH. lia.
Qed.

Lemma truthy_len s : truthy s = true <-> 0 < len s.
Proof. destruct s; unfold len; simpl; split; (done || lia). Qed.

Lemma drop_while_start s : starts_nonspace s = true -> drop_while is_space s = s.
Proof. destruct s as [|c t]; simpl; [done|]. by intros ->%negb_true_iff. Qed.

Lemma drop_while_end_keep s :
  ends_nonspace s = true -> drop_while_end is_space s = s.
Proof.
  induction s as [|c t IH]; [done|]. simpl.
  destruct t as [|c' t'].
  - simpl. by intros ->%negb_true_iff.
  - intros H. by rewrite (IH H).
Qed.

Lemma drop_while_starts s :
  drop_while is_space s <> "" -> starts_nonspace (drop_while is_space s) = true.
Proof.
  induction s as [|c t IH]; simpl; [done|].
  destruct (is_space c) eqn:Hc; [done|]. simpl. by rewrite Hc.
Qed.

Lemma drop_while_end_ends s :
  drop_while_end is_space s <> "" ->
  ends_nonspace (drop_while_end is_space s) = true.
Proof.
  induction s as [|c t IH]; simpl; [done|].
  destruct (drop_while_end is_space t) as [|c' r] eqn:Hr.
  - destruct (is_space c) eqn:Hc; [done|]. simpl. by rewrite Hc.
  - intros _. change (ends_nonspace (String c' r) = true). by apply IH.
Qed.

Lemma drop_while_end_starts s :
  starts_nonspace s = true ->
  starts_nonspace (drop_while_end is_space s) = true.
Proof.
  destruct s as [|c t]; simpl; [done|]. intros Hc.
  destruct (drop_while_end is_space t).
  - apply negb_true_iff in Hc. by rewrite Hc; simpl; rewrite Hc.
  - done.
Qed.

Lemma drop_while_end_nonempty s :
  starts_nonspace s = true -> drop_while_end is_space s <> "".
Proof.
  intros H%drop_while_end_starts. by destruct (drop_while_end is_space s).
Qed.

(** [strip] returns the empty string or a tight one. *)
Lemma strip_tight s : strip s = "" \/ tight (strip s) = true.
Proof.
  unfold strip, tight.
  destruct (drop_while is_space s) as [|c t] eqn:Hd; [by left|].
  right. assert (starts_nonspace (String c t) = true) as Hs.
  { rewrite <- Hd. apply drop_while_starts. by rewrite Hd. }
  rewrite drop_while_end_starts by done.
  rewrite drop_while_end_ends; [done|]. by apply drop_while_end_nonempty.
Qed.

Lemma strip_of_tight s : tight s = true -> strip s = s.
Proof.
  unfold tight, strip. intros [H1 H2]%andb_true_iff.
  rewrite drop_while_start by done. by apply drop_while_end_keep.
Qed.

Lemma starts_nonspace_app s t :
  starts_nonspace s = true -> starts_nonspace (s +:+ t) = true.
Proof. by destruct s. Qed.

Lemma ends_nonspace_app s t :
  ends_nonspace t = true -> ends_nonspace (s +:+ t) = true.
Proof.
  intros Ht. induction s as [|c s IH]; simpl; [done|].
  destruct (s +:+ t) eqn:Hst; [|done].
  destruct s; simpl in Hst; [by subst|done].
Qed.

Lemma join_tight sep ls :
  ls <> [] -> Forall (fun l => tight l = true) ls ->
  tight (join sep ls) = true.
Proof.
  intros Hne Hall. induction Hall as [|l ls Hl Hall IH]; [done|].
  unfold join in *. simpl. destruct ls as [|l' ls']; [done|].
  specialize (IH ltac:(done)).
  unfold tight in *. apply andb_true_iff in Hl as [Hl1 Hl2].
  apply andb_true_iff in IH as [IH1 IH2]. apply andb_true_iff. split.
  - by apply starts_nonspace_app.
  - by do 2 apply ends_nonspace_app.
Qed.

Lemma strip_idempotent_on_tight_or_empty s :
  s = "" \/ tight s = true -> strip s = s.
Proof. intros [->|H]; [done | by apply strip_of_tight]. Qed.

Lemma append_cons c s t : String c s +:+ t = String c (s +:+ t).
Proof. reflexivity. Qed.

Lemma append_nil_l t : "" +:+ t = t.
Proof. reflexivity. Qed.

(** *** Characters occurring in a string *)

Lemma existsb_chars_app p s t :
  existsb_chars p (s +:+ t) = existsb_chars p s || existsb_chars p t.
Proof.
  induction s as [|c s IH]; simpl; [done|]. by rewrite IH, orb_assoc.
Qed.

Lemma existsb_chars_weaken (p q : ascii -> bool) s :
  (forall c, q c = true -> p c = true) ->
  existsb_chars p s = false -> existsb_chars q s = false.
Proof.
  intros Hpq. induction s as [|c s IH]; simpl; [done|].
  intros [Hc Hs]%orb_false_iff. rewrite (IH Hs), orb_false_r.
  destruct (q c) eqn:Hq; [|done]. by rewrite (Hpq c Hq) in Hc.
Qed.

Lemma forallb_existsb_chars (p q : ascii -> bool) s :
  (forall c, p c = true -> q c = false) ->
  forallb_chars p s = true -> existsb_chars q s = false.
Proof.
  intros Hpq. induction s as [|c s IH]; simpl; [done|].
  intros [Hc Hs]%andb_true_iff. by rewrite (Hpq c Hc), (IH Hs).
Qed.

Lemma existsb_drop_while p q s :
  existsb_chars q s = false -> existsb_chars q (drop_while p s) = false.
Proof.
  induction s as [|c s IH]; simpl; [done|].
  intros [Hc Hs]%orb_false_iff. destruct (p c); [by apply IH|].
  simpl. by rewrite Hc, Hs.
Qed.

Lemma existsb_remove_chars p q s :
  existsb_chars q s = false -> existsb_chars q (remove_chars p s) = false.
Proof.
  induction s as [|c s IH]; simpl; [done|].
  intros [Hc Hs]%orb_false_iff. destruct (p c); [by apply IH|].
  simpl. by rewrite Hc, IH.
Qed.

Lemma existsb_remove_chars_self p s :
  existsb_chars p (remove_chars p s) = false.
Proof.
  induction s as [|c s IH]; simpl; [done|].
  destruct (p c) eqn:Hc; [done|]. simpl. by rewrite Hc, IH.
Qed.

Lemma remove_chars_none p s :
  existsb_chars p s = false -> remove_chars p s = s.
Proof.
  induction s as [|c s IH]; simpl; [done|].
  intros [Hc Hs]%orb_false_iff. by rewrite Hc, IH.
Qed.

Lemma remove_chars_app p s t :
  remove_chars p (s +:+ t) = remove_chars p s +:+ remove_chars p t.
Proof.
  induction s as [|c s IH]; simpl; [done|]. rewrite IH. by destruct (p c).
Qed.

Lemma existsb_tail q s :
  existsb_chars q s = false -> existsb_chars q (tail s) = false.
Proof. destruct s; simpl; [done|]. by intros [_ ?]%orb_false_iff. Qed.

Lemma existsb_drop_last q s :
  existsb_chars q s = false -> existsb_chars q (drop_last s) = false.
Proof.
  induction s as [|c s IH]; [done|]. simpl.
  intros [Hc Hs]%orb_false_iff. destruct s as [|c' s']; [done|].
  change (q c || existsb_chars q (drop_last (String c' s')) = false).
  by rewrite Hc, IH.
Qed.

(** *** [break] *)

Lemma break_app p s : (break p s).1 +:+ (break p s).2 = s.
Proof.
  induction s as [|c s IH]; simpl; [done|].
  destruct (p c); [done|]. destruct (break p s) as [h r]. simpl in *.
  by rewrite IH.
Qed.

Lemma break_fst_none p s : existsb_chars p (break p s).1 = false.
Proof.
  induction s as [|c s IH]; simpl; [done|].
  destruct (p c) eqn:Hc; [done|]. destruct (break p s) as [h r]. simpl in *.
  by rewrite Hc, IH.
Qed.

Lemma break_snd_head p s c t : (break p s).2 = String c t -> p c = true.
Proof.
  induction s as [|a s IH]; simpl; [done|].
  destruct (p a) eqn:Ha; simpl; [by intros [= <- _]|].
  destruct (break p s) as [h r]. simpl in *. apply IH.
Qed.

Lemma break_none p s : existsb_chars p s = false -> break p s = (s, "").
Proof.
  induction s as [|c s IH]; simpl; [done|].
  intros [Hc Hs]%orb_false_iff. by rewrite Hc, IH.
Qed.

Lemma break_hit p h c t :
  existsb_chars p h = false -> p c = true ->
  break p (h +:+ String c t) = (h, String c t).
Proof.
  intros Hh Hc. induction h as [|a h IH]; simpl; [by rewrite Hc|].
  simpl in Hh. apply orb_false_iff in Hh as [Ha Hh]. by rewrite Ha, IH.
Qed.

Lemma break_at_end p h :
  existsb_chars p h = false -> break p (h +:+ "") = (h, "").
Proof.
  intros Hh. induction h as [|a h IH]; simpl; [done|].
  simpl in Hh. apply orb_false_iff in Hh as [Ha Hh]. by rewrite Ha, IH.
Qed.

Lemma existsb_break_fst p q s :
  existsb_chars q s = false -> existsb_chars q (break p s).1 = false.
Proof.
  intros H. rewrite <- (break_app p s), existsb_chars_app in H.
  by apply orb_false_iff in H as [? _].
Qed.

Lemma existsb_break_snd p q s :
  existsb_chars q s = false -> existsb_chars q (break p s).2 = false.
Proof.
  intros H. rewrite <- (break_app p s), existsb_chars_app in H.
  by apply orb_false_iff in H as [_ ?].
Qed.

(** Appending text that begins with a character [p] stops at leaves the
    first component alone. *)
Lemma break_app_stop p s c t :
  p c = true ->
  break p (s +:+ String c t) = ((break p s).1, (break p s).2 +:+ String c t).
Proof.
  intros Hc. induction s as [|a s IH]; simpl; [by rewrite Hc|].
  destruct (p a); [done|]. rewrite IH. by destruct (break p s).
Qed.

Lemma break_cons_miss p c s :
  p c = false -> break p (String c s) = (String c (break p s).1, (break p s).2).
Proof. intros Hc. simpl. rewrite Hc. by destruct (break p s). Qed.

Lemma remove_chars_cons_keep p c s :
  p c = false -> remove_chars p (String c s) = String c (remove_chars p s).
Proof. intros Hc. simpl. by rewrite Hc. Qed.

Lemma break_app_found p s x :
  (break p s).2 <> "" ->
  break p (s +:+ x) = ((break p s).1, (break p s).2 +:+ x).
Proof.
  induction s as [|a s IH]; simpl; [done|].
  destruct (p a); [done|]. destruct (break p s) as [h r]. simpl in *.
  intros Hr. by rewrite (IH Hr).
Qed.

Lemma break_app_none p s x :
  existsb_chars p s = false ->
  break p (s +:+ x) = (s +:+ (break p x).1, (break p x).2).
Proof.
  induction s as [|a s IH]; simpl; [by destruct (break p x)|].
  intros [Ha Hs]%orb_false_iff. by rewrite Ha, (IH Hs).
Qed.

Lemma drop_while_app_stop p s c t :
  p c = false ->
  drop_while p (s +:+ String c t) = drop_while p s +:+ String c t.
Proof.
  intros Hc. induction s as [|a s IH]; simpl; [by rewrite Hc|].
  by destruct (p a).
Qed.

Lemma append_empty_r s : s +:+ "" = s.
Proof. induction s as [|c s IH]; simpl; [done | by rewrite IH]. Qed.

Lemma append_assoc s t u : (s +:+ t) +:+ u = s +:+ (t +:+ u).
Proof. induction s as [|c s IH]; simpl; [done | by rewrite IH]. Qed.

(** *** The end of a string *)

Lemma ends_with_app c s a t :
  ends_with c (s +:+ String a t) = ends_with c (String a t).
Proof.
  induction s as [|b s IH]; [done|].
  change (ends_with c (String b (s +:+ String a t))
          = ends_with c (String a t)).
  destruct (s +:+ String a t) eqn:Hst; [by destruct s|].
  rewrite <- IH. done.
Qed.

Lemma drop_last_app s a t :
  drop_last (s +:+ String a t) = s +:+ drop_last (String a t).
Proof.
  induction s as [|b s IH]; [done|].
  change (drop_last (String b (s +:+ String a t))
          = String b (s +:+ drop_last (String a t))).
  destruct (s +:+ String a t) eqn:Hst; [by destruct s|].
  rewrite <- IH. done.
Qed.

End PyStrProps.

(** * Properties of [urlparse] and [normalize_url] *)

Module UrlProps.
Import PyStr UrlParse Crawler CrawlSpec PyStrProps.

#[local] Arguments String.append !_ _ : simpl nomatch.

(** Facts about single characters are settled by running through the 256
    code points. *)
Ltac each_char c :=
  destruct c as [[] [] [] [] [] [] [] []]; vm_compute; try done; auto.

Lemma scheme_char_plain c :
  is_scheme_char c = true ->
  is_netloc_delim c = false /\ Ascii.eqb ":" c = false /\
  is_unsafe_url_byte c = false /\ Ascii.eqb "?" c = false /\
  Ascii.eqb "#" c = false.
Proof. each_char c. Qed.

Lemma lower_scheme_char c :
  is_scheme_char c = true -> is_lower_scheme_char (lower_char c) = true.
Proof. each_char c. Qed.

Lemma lower_alpha c : is_ascii_alpha c = true -> is_lower (lower_char c) = true.
Proof. each_char c. Qed.

Lemma lower_scheme_char_is c :
  is_lower_scheme_char c = true ->
  is_scheme_char c = true /\ lower_char c = c.
Proof. each_char c. Qed.

Lemma lower_is_alpha c :
  is_lower c = true ->
  is_ascii_alpha c = true /\ is_c0_control_or_space c = false.
Proof. each_char c. Qed.

Lemma question_is_delim c :
  Ascii.eqb "?" c = true -> is_netloc_delim c = true.
Proof. each_char c. Qed.

Lemma hash_is_delim c : Ascii.eqb "#" c = true -> is_netloc_delim c = true.
Proof. each_char c. Qed.

Lemma slash_is_delim c : Ascii.eqb "/" c = true -> is_netloc_delim c = true.
Proof. each_char c. Qed.

Lemma forallb_chars_app p s t :
  forallb_chars p (s +:+ t) = forallb_chars p s && forallb_chars p t.
Proof.
  induction s as [|c s IH]; simpl; [done|]. by rewrite IH, andb_assoc.
Qed.

Lemma forallb_chars_impl (p q : ascii -> bool) s :
  (forall c, p c = true -> q c = true) ->
  forallb_chars p s = true -> forallb_chars q s = true.
Proof.
  intros Hpq. induction s as [|c s IH]; simpl; [done|].
  intros [Hc Hs]%andb_true_iff. by rewrite (Hpq c Hc), IH.
Qed.

Lemma forallb_lower s :
  forallb_chars is_scheme_char s = true ->
  forallb_chars is_lower_scheme_char (lower s) = true.
Proof.
  unfold lower. induction s as [|c s IH]; simpl; [done|].
  intros [Hc Hs]%andb_true_iff. by rewrite lower_scheme_char, IH.
Qed.

Lemma lower_fixed s :
  forallb_chars is_lower_scheme_char s = true -> lower s = s.
Proof.
  unfold lower. induction s as [|c s IH]; simpl; [done|].
  intros [Hc Hs]%andb_true_iff.
  rewrite IH by done. by destruct (lower_scheme_char_is c Hc) as [_ ->].
Qed.

(** *** The scheme *)

Lemma split_scheme_cases u :
  split_scheme u = ("", u) \/
  exists pre, wf_scheme (lower pre) = true /\
    forallb_chars is_scheme_char pre = true /\
    split_scheme u = (lower pre, tail (break (Ascii.eqb ":") u).2) /\
    (break (Ascii.eqb ":") u).1 = pre /\ (break (Ascii.eqb ":") u).2 <> "".
Proof.
  unfold split_scheme. destruct (break _ u) as [pre rest] eqn:Hb.
  destruct rest as [|c after]; [by left|].
  destruct pre as [|c0 pre']; [by left|].
  destruct (is_ascii_alpha c0 && _) eqn:Hok; [|by left].
  right. exists (String c0 pre'). apply andb_true_iff in Hok as [Ha Hf].
  repeat split; try done.
  apply forallb_lower in Hf. apply lower_alpha in Ha.
  unfold wf_scheme, lower in *. simpl in *. by rewrite Ha, Hf.
Qed.

Lemma wf_scheme_facts s :
  wf_scheme s = true ->
  forallb_chars is_scheme_char s = true /\ lower s = s /\
  (exists c0 t, s = String c0 t /\ is_ascii_alpha c0 = true /\
     is_c0_control_or_space c0 = false).
Proof.
  unfold wf_scheme. destruct s as [|c0 t]; [done|].
  intros [Hc Hf]%andb_true_iff. split; [|split].
  - eapply forallb_chars_impl; [|exact Hf]. intros c Hcc.
    by destruct (lower_scheme_char_is c Hcc).
  - by apply lower_fixed.
  - exists c0, t. by destruct (lower_is_alpha c0 Hc).
Qed.

Lemma split_scheme_rebuild s x :
  wf_scheme s = true -> split_scheme (s +:+ String ":" x) = (s, x).
Proof.
  intros Hwf. destruct (wf_scheme_facts s Hwf) as (Hf & Hl & c0 & t & -> & Ha & _).
  unfold split_scheme. rewrite break_hit; [|by eapply forallb_existsb_chars;
    [|exact Hf]; intros c Hc; destruct (scheme_char_plain c Hc) as (_&?&_)|done].
  by rewrite Ha, Hf, Hl.
Qed.

Lemma split_scheme_suffix b d x :
  is_scheme_char d = false -> Ascii.eqb ":" d = false ->
  split_scheme (b +:+ String d x)
  = ((split_scheme b).1, (split_scheme b).2 +:+ String d x).
Proof.
  intros Hd Hcolon. unfold split_scheme.
  destruct (break (Ascii.eqb ":") b) as [pre rest] eqn:Hb.
  destruct rest as [|c after].
  - assert (existsb_chars (Ascii.eqb ":") b = false) as Hnone.
    { pose proof (break_app (Ascii.eqb ":") b) as Happ.
      pose proof (break_fst_none (Ascii.eqb ":") b) as Hf.
      rewrite Hb in Happ, Hf. simpl in *. rewrite append_empty_r in Happ.
      by subst. }
    rewrite (break_app_none _ b _ Hnone), (break_cons_miss _ d x Hcolon).
    destruct (break (Ascii.eqb ":") x) as [h r]. cbn [fst snd].
    destruct r as [|c after]; [done|].
    destruct b as [|c0 b'].
    + rewrite append_nil_l.
      assert (is_ascii_alpha d = false) as ->; [|done].
      revert Hd. clear. each_char d.
    + rewrite forallb_chars_app.
      change (forallb_chars is_scheme_char (String d h))
        with (is_scheme_char d && forallb_chars is_scheme_char h).
      rewrite Hd, andb_false_l, !andb_false_r, (append_cons c0 b' (String d h)).
      by rewrite andb_false_r.
  - rewrite break_app_found by by rewrite Hb.
    rewrite Hb. simpl. destruct pre as [|c0 pre']; [done|].
    by destruct (_ && _).
Qed.

Lemma existsb_split_scheme q u :
  existsb_chars q u = false -> existsb_chars q (split_scheme u).2 = false.
Proof.
  intros Hu.
  destruct (split_scheme_cases u) as [->|(pre & _ & _ & -> & _)]; [done|].
  by apply existsb_tail, existsb_break_snd.
Qed.

Lemma after_double_slash_suffix u d x :
  Ascii.eqb d "/" = false ->
  after_double_slash (u +:+ String d x)
  = match after_double_slash u with
    | Some r => Some (r +:+ String d x)
    | None => None
    end.
Proof.
  intros Hd. destruct u as [|c1 [|c2 r]]; cbn -[Ascii.eqb].
  - destruct x; [done|]. by rewrite Hd.
  - by rewrite Hd, andb_false_r.
  - by destruct (_ && _).
Qed.

Lemma existsb_after_double_slash q u r :
  after_double_slash u = Some r ->
  existsb_chars q u = false -> existsb_chars q r = false.
Proof.
  destruct u as [|c1 [|c2 r']]; try done. simpl.
  destruct (_ && _); [|done]. intros [= <-].
  by intros [_ [_ ?]%orb_false_iff]%orb_false_iff.
Qed.

(** The path of [rest] followed by a query or a fragment is [rest]. *)
Lemma path_suffix rest d x :
  d = "?"%char \/ d = "#"%char ->
  contains "?" rest = false -> contains "#" rest = false ->
  (break (Ascii.eqb "?")
     (break (Ascii.eqb "#") (rest +:+ String d x)).1).1 = rest /\
  (break (Ascii.eqb "?") (break (Ascii.eqb "#") rest).1).1 = rest.
Proof.
  unfold contains. intros Hd Hq Hh. split.
  - destruct Hd as [-> | ->].
    + rewrite (break_app_none _ rest _ Hh), break_cons_miss by done.
      cbn [fst snd]. by rewrite break_hit.
    + rewrite break_hit by done. simpl. by rewrite break_none.
  - rewrite (break_none _ rest Hh). simpl. by rewrite break_none.
Qed.

(** *** [urlsplit] *)

Section Split.

Variable chk : string -> bool.

Lemma rooted_break_slash (p : ascii -> bool) s :
  p "/"%char = false -> rooted s = true -> rooted (break p s).1 = true.
Proof.
  intros Hp. destruct s as [|a t]; simpl; [done|].
  intros ->%Ascii.eqb_eq. rewrite Hp. by destruct (break p t).
Qed.

(** What follows a network location leads to an empty or rooted path. *)
Lemma path_after_netloc r :
  rooted (break (Ascii.eqb "?")
            (break (Ascii.eqb "#") (break is_netloc_delim r).2).1).1 = true.
Proof.
  pose proof (break_snd_head is_netloc_delim r) as Hh.
  destruct (break is_netloc_delim r).2 as [|c t]; [done|].
  specialize (Hh c t eq_refl). unfold is_netloc_delim in Hh.
  destruct (Ascii.eqb_spec c "/") as [->|_].
  { apply rooted_break_slash; [done|]. by apply rooted_break_slash. }
  destruct (Ascii.eqb_spec c "?") as [->|_].
  { simpl. by destruct (break _ t). }
  destruct (Ascii.eqb_spec c "#") as [->|_]; done.
Qed.

Lemma urlsplit_inv u s n p q f :
  urlsplit chk u = Ret (s, n, p, q, f) ->
  (s = "" \/ wf_scheme s = true) /\
  existsb_chars is_netloc_delim n = false /\
  existsb_chars is_unsafe_url_byte n = false /\
  netloc_ok chk n = true /\
  existsb_chars is_unsafe_url_byte p = false /\
  contains "?" p = false /\ contains "#" p = false /\
  (n <> "" -> rooted p = true).
Proof.
  unfold urlsplit.
  set (u2 := remove_chars _ (drop_while _ u)).
  assert (existsb_chars is_unsafe_url_byte u2 = false) as Hu2
    by apply existsb_remove_chars_self.
  destruct (split_scheme u2) as [sch u3] eqn:Hss.
  assert ((sch = "" \/ wf_scheme sch = true) /\
          existsb_chars is_unsafe_url_byte u3 = false) as [Hsch Hu3].
  { destruct (split_scheme_cases u2) as [Hs|(pre & Hwf & _ & Hs & _)];
      rewrite Hs in Hss; injection Hss as <- <-.
    - split; [by left | done].
    - split; [by right|]. by apply existsb_tail, existsb_break_snd. }
  assert (forall x, existsb_chars is_unsafe_url_byte x = false ->
            existsb_chars is_unsafe_url_byte
              (break (Ascii.eqb "?") (break (Ascii.eqb "#") x).1).1 = false /\
            contains "?" (break (Ascii.eqb "?") (break (Ascii.eqb "#") x).1).1
              = false /\
            contains "#" (break (Ascii.eqb "?") (break (Ascii.eqb "#") x).1).1
              = false) as Hpath.
  { intros x Hx. split; [by do 2 apply existsb_break_fst|].
    split; [apply break_fst_none|]. apply existsb_break_fst, break_fst_none. }
  destruct (after_double_slash u3) as [r|] eqn:Hds.
  - assert (existsb_chars is_unsafe_url_byte r = false) as Hr.
    { destruct u3 as [|c1 [|c2 r']]; try done. simpl in Hds.
      destruct (_ && _); [|done]. injection Hds as <-.
      simpl in Hu3. by repeat apply orb_false_iff in Hu3 as [_ Hu3]. }
    pose proof (path_after_netloc r) as Hroot.
    pose proof (break_fst_none is_netloc_delim r) as Hnl.
    pose proof (existsb_break_fst is_netloc_delim _ r Hr) as Hnl'.
    pose proof (existsb_break_snd is_netloc_delim _ r Hr) as Hrest.
    destruct (break is_netloc_delim r) as [nl rest]. simpl in *.
    destruct (netloc_ok chk nl) eqn:Hok; [|done]. simpl.
    unfold split_once.
    destruct (Hpath rest Hrest) as (H1 & H2 & H3).
    destruct (break (Ascii.eqb "#") rest) as [h1 r1]. simpl in *.
    destruct (break (Ascii.eqb "?") h1) as [h2 r2]. simpl in *.
    intros [= <- <- <- <- <-]. by repeat split.
  - simpl. unfold split_once.
    destruct (Hpath u3 Hu3) as (H1 & H2 & H3).
    destruct (break (Ascii.eqb "#") u3) as [h1 r1]. simpl in *.
    destruct (break (Ascii.eqb "?") h1) as [h2 r2]. simpl in *.
    intros [= <- <- <- <- <-]. by repeat split.
Qed.

Lemma urlsplit_rebuild s n p :
  wf_scheme s = true ->
  existsb_chars is_netloc_delim n = false ->
  existsb_chars is_unsafe_url_byte n = false ->
  netloc_ok chk n = true ->
  existsb_chars is_unsafe_url_byte p = false ->
  contains "?" p = false -> contains "#" p = false ->
  rooted p = true ->
  urlsplit chk (s +:+ "://" +:+ n +:+ p) = Ret (s, n, p, "", "").
Proof.
  intros Hwf Hn1 Hn2 Hok Hp1 Hp2 Hp3 Hroot.
  destruct (wf_scheme_facts s Hwf) as (Hf & Hl & c0 & t & Hs & Ha & Hc0).
  unfold urlsplit.
  assert (drop_while is_c0_control_or_space (s +:+ "://" +:+ n +:+ p)
          = s +:+ "://" +:+ n +:+ p) as ->.
  { rewrite Hs. simpl. by rewrite Hc0. }
  rewrite remove_chars_none.
  2:{ rewrite !existsb_chars_app, Hn2, Hp1. simpl.
      rewrite (forallb_existsb_chars is_scheme_char _ s); [done| |done].
      intros c Hc. by destruct (scheme_char_plain c Hc) as (_&_&?&_). }
  change (s +:+ "://" +:+ n +:+ p) with (s +:+ String ":" ("//" +:+ n +:+ p)).
  rewrite split_scheme_rebuild by done.
  change (after_double_slash ("//" +:+ n +:+ p)) with (Some (n +:+ p)).
  cbv iota beta.
  assert (break is_netloc_delim (n +:+ p) = (n, p)) as ->.
  { destruct p as [|c p']; [by rewrite break_at_end|].
    simpl in Hroot. apply Ascii.eqb_eq in Hroot as ->.
    by apply break_hit. }
  rewrite Hok. simpl. unfold split_once.
  unfold contains in *. rewrite (break_none _ p Hp3). simpl.
  by rewrite (break_none _ p Hp2).
Qed.

(** A query or a fragment appended to a URL that has neither changes
    nothing in its scheme, network location and path. *)
Lemma urlsplit_suffix base d x :
  d = "?"%char \/ d = "#"%char ->
  contains "?" base = false -> contains "#" base = false ->
  match urlsplit chk base with
  | Ret (s, n, p, _, _) =>
      exists q f, urlsplit chk (base +:+ String d x) = Ret (s, n, p, q, f)
  | Raise => urlsplit chk (base +:+ String d x) = Raise
  end.
Proof.
  intros Hd Hq Hh.
  assert (is_c0_control_or_space d = false /\ is_unsafe_url_byte d = false /\
          is_scheme_char d = false /\ Ascii.eqb ":" d = false /\
          Ascii.eqb d "/" = false /\ is_netloc_delim d = true)
    as (Hd1 & Hd2 & Hd3 & Hd4 & Hd5 & Hd6) by by destruct Hd as [-> | ->].
  unfold urlsplit.
  rewrite (drop_while_app_stop _ base d x Hd1), remove_chars_app.
  rewrite (remove_chars_cons_keep _ d x Hd2).
  set (b2 := remove_chars _ (drop_while _ base)).
  set (x' := remove_chars _ x).
  assert (contains "?" b2 = false /\ contains "#" b2 = false) as [Hq2 Hh2].
  { split; by apply existsb_remove_chars, existsb_drop_while. }
  rewrite (split_scheme_suffix b2 d x' Hd3 Hd4).
  pose proof (existsb_split_scheme _ b2 Hq2) as Hq3.
  pose proof (existsb_split_scheme _ b2 Hh2) as Hh3.
  destruct (split_scheme b2) as [sch u3]. simpl in *.
  rewrite (after_double_slash_suffix u3 d x' Hd5).
  destruct (after_double_slash u3) as [r|] eqn:Hds.
  - pose proof (existsb_after_double_slash _ _ _ Hds Hq3) as Hq4.
    pose proof (existsb_after_double_slash _ _ _ Hds Hh3) as Hh4.
    rewrite (break_app_stop _ r d x' Hd6).
    pose proof (existsb_break_snd is_netloc_delim _ r Hq4) as Hq5.
    pose proof (existsb_break_snd is_netloc_delim _ r Hh4) as Hh5.
    destruct (break is_netloc_delim r) as [nl rest]. simpl in *.
    destruct (netloc_ok chk nl); [|done]. simpl. unfold split_once.
    destruct (path_suffix rest d x' Hd Hq5 Hh5) as [H1 H2].
    destruct (break (Ascii.eqb "#") (rest +:+ String d x')) as [h1 r1].
    destruct (break (Ascii.eqb "#") rest) as [h1' r1']. simpl in *.
    destruct (break (Ascii.eqb "?") h1) as [h2 r2].
    destruct (break (Ascii.eqb "?") h1') as [h2' r2']. simpl in *.
    subst. eauto.
  - simpl. unfold split_once.
    destruct (path_suffix u3 d x' Hd Hq3 Hh3) as [H1 H2].
    destruct (break (Ascii.eqb "#") (u3 +:+ String d x')) as [h1 r1].
    destruct (break (Ascii.eqb "#") u3) as [h1' r1']. simpl in *.
    destruct (break (Ascii.eqb "?") h1) as [h2 r2].
    destruct (break (Ascii.eqb "?") h1') as [h2' r2']. simpl in *.
    subst. eauto.
Qed.

(** *** The parameter split of [urlparse] *)

Lemma rbreak_none c s : contains c s = false -> rbreak c s = None.
Proof.
  unfold contains. induction s as [|a s IH]; simpl; [done|].
  intros [Ha Hs]%orb_false_iff. rewrite (IH Hs).
  by rewrite Ascii.eqb_sym, Ha.
Qed.

Lemma rbreak_some c s :
  contains c s = true -> exists h t, rbreak c s = Some (h, String c t).
Proof.
  unfold contains. induction s as [|a s IH]; simpl; [done|].
  destruct (existsb_chars (Ascii.eqb c) s) eqn:Hs.
  - intros _. destruct (IH eq_refl) as (h & t & ->). eauto.
  - rewrite orb_false_r. intros Ha. rewrite (rbreak_none c s Hs).
    rewrite Ascii.eqb_sym, Ha. apply Ascii.eqb_eq in Ha as ->. eauto.
Qed.

Lemma rbreak_app c s h r : rbreak c s = Some (h, r) -> s = h +:+ r.
Proof.
  revert h r. induction s as [|a s IH]; intros h r; simpl; [done|].
  destruct (rbreak c s) as [[h' r']|].
  - intros [= <- <-]. simpl. by rewrite <- (IH h' r').
  - destruct (Ascii.eqb a c); [|done]. by intros [= <- <-].
Qed.

Lemma rbreak_app_r c x s h r :
  rbreak c s = Some (h, r) -> rbreak c (x +:+ s) = Some (x +:+ h, r).
Proof.
  intros Hs. induction x as [|a x IH]; simpl; [done|]. by rewrite IH.
Qed.

Lemma last_segment_app x p :
  contains "/" p = true -> last_segment (x +:+ p) = last_segment p.
Proof.
  intros (h & t & Hp)%rbreak_some. unfold last_segment.
  by rewrite (rbreak_app_r _ x p _ _ Hp), Hp.
Qed.

Lemma splitparams_keep p :
  contains ";" (last_segment p) = false -> splitparams p = (p, "").
Proof.
  unfold last_segment, splitparams.
  destruct (rbreak "/" p) as [[h seg]|] eqn:Hr.
  - destruct (rbreak_some "/" p) as (h' & t & Hr').
    { destruct (contains "/" p) eqn:Hc; [done|].
      by rewrite (rbreak_none _ _ Hc) in Hr. }
    rewrite Hr in Hr'. injection Hr' as -> ->. simpl. intros Ht.
    unfold contains in Ht. by rewrite (break_none _ t Ht).
  - intros Hp. unfold split_once, contains in *. by rewrite (break_none _ p Hp).
Qed.

Lemma splitparams_rooted p : rooted p = true -> rooted (splitparams p).1 = true.
Proof.
  destruct p as [|c p]; [done|]. simpl. intros ->%Ascii.eqb_eq.
  unfold splitparams. simpl.
  destruct (rbreak "/" p) as [[h seg]|].
  - by destruct (break _ seg) as [x [|]].
  - simpl. by destruct (break _ p) as [x [|]].
Qed.

Lemma existsb_splitparams q p :
  existsb_chars q p = false -> existsb_chars q (splitparams p).1 = false.
Proof.
  intros Hp. unfold splitparams.
  destruct (rbreak "/" p) as [[h seg]|] eqn:Hr.
  - pose proof (existsb_break_fst (Ascii.eqb ";") q seg) as Hb.
    destruct (break _ seg) as [x [|a y]]; simpl in *; [done|].
    apply rbreak_app in Hr. rewrite Hr, existsb_chars_app in Hp.
    apply orb_false_iff in Hp as [Hh Hs].
    by rewrite existsb_chars_app, Hh, Hb.
  - unfold split_once.
    pose proof (existsb_break_fst (Ascii.eqb ";") q p Hp) as Hb.
    by destruct (break _ p).
Qed.

(** What [urlparse] returns: a scheme that is empty or lower-case, a
    network location and a path free of the characters that end them. *)
Lemma urlparse_inv u r :
  urlparse chk u = Ret r ->
  (scheme r = "" \/ wf_scheme (scheme r) = true) /\
  existsb_chars is_netloc_delim (netloc r) = false /\
  existsb_chars is_unsafe_url_byte (netloc r) = false /\
  netloc_ok chk (netloc r) = true /\
  existsb_chars is_unsafe_url_byte (path r) = false /\
  contains "?" (path r) = false /\ contains "#" (path r) = false /\
  (netloc r <> "" -> rooted (path r) = true).
Proof.
  unfold urlparse.
  destruct (urlsplit chk u) as [[[[[s n] p] q] f]|] eqn:Hs; [|done].
  apply urlsplit_inv in Hs as (H1&H2&H3&H4&H5&H6&H7&H8). simpl.
  destruct (_ && _).
  - pose proof (existsb_splitparams is_unsafe_url_byte p H5).
    pose proof (existsb_splitparams _ p H6).
    pose proof (existsb_splitparams _ p H7).
    pose proof (splitparams_rooted p).
    destruct (splitparams p) as [p' prm]. intros [= <-]. simpl in *.
    repeat split; auto.
  - intros [= <-]. simpl. repeat split; auto.
Qed.

Lemma urlparse_rebuild s n p :
  wf_scheme s = true ->
  existsb_chars is_netloc_delim n = false ->
  existsb_chars is_unsafe_url_byte n = false ->
  netloc_ok chk n = true ->
  existsb_chars is_unsafe_url_byte p = false ->
  contains "?" p = false -> contains "#" p = false ->
  rooted p = true ->
  contains ";" (last_segment p) = false ->
  urlparse chk (s +:+ "://" +:+ n +:+ p) = Ret (mkParseResult s n p "" "" "").
Proof.
  intros. unfold urlparse. rewrite urlsplit_rebuild by done. simpl.
  destruct (_ && _); [|done]. by rewrite splitparams_keep.
Qed.

(** *** [normalize_url] *)

Local Abbreviation normalize := (normalize_url chk).

Lemma rebuilt_long r : (1 <? len (rebuilt r)) = true.
Proof.
  apply Z.ltb_lt. unfold rebuilt. rewrite !len_app.
  pose proof (len_nonneg (scheme r)). pose proof (len_nonneg (netloc r)).
  pose proof (len_nonneg (path r)). change (len "://") with 3. lia.
Qed.

(** The test on the length never fails: a trailing slash always goes. *)
Lemma normalize_url_eq u r :
  u <> "" -> urlparse chk u = Ret r ->
  normalize (Some u) = Ret (Some (strip_slash (rebuilt r))).
Proof.
  intros Hu Hr. unfold normalize_url. destruct u as [|c t]; [done|].
  rewrite Hr. unfold mbind, exc_bind. cbv zeta. fold (rebuilt r).
  by rewrite rebuilt_long, andb_true_r.
Qed.

Lemma normalize_url_raise u :
  u <> "" -> urlparse chk u = Raise -> normalize (Some u) = Raise.
Proof.
  intros Hu Hr. unfold normalize_url. destruct u as [|c t]; [done|].
  by rewrite Hr.
Qed.

Lemma normalize_url_some u n :
  normalize (Some u) = Ret (Some n) ->
  u <> "" /\ exists r, urlparse chk u = Ret r /\ n = strip_slash (rebuilt r).
Proof.
  destruct u as [|c t]; [done|]. intros Hn. split; [done|].
  destruct (urlparse chk (String c t)) as [r|] eqn:Hr.
  - exists r. split; [done|].
    rewrite (normalize_url_eq _ r) in Hn by done. by injection Hn as <-.
  - by rewrite normalize_url_raise in Hn.
Qed.

Lemma existsb_strip_slash q s :
  existsb_chars q s = false -> existsb_chars q (strip_slash s) = false.
Proof.
  unfold strip_slash. destruct (ends_with "/" s); [|done].
  apply existsb_drop_last.
Qed.

Lemma wf_scheme_clean q s :
  (forall c, is_scheme_char c = true -> q c = false) ->
  s = "" \/ wf_scheme s = true -> existsb_chars q s = false.
Proof.
  intros Hq [->|Hwf]; [done|].
  destruct (wf_scheme_facts s Hwf) as (Hf & _).
  by eapply forallb_existsb_chars.
Qed.

(** Neither a question mark nor a hash survives normalisation. *)
Lemma normalize_url_clean u n :
  normalize (Some u) = Ret (Some n) ->
  contains "?" n = false /\ contains "#" n = false.
Proof.
  intros (_ & r & Hr & ->)%normalize_url_some.
  apply urlparse_inv in Hr as (Hs & Hn & _ & _ & _ & Hp1 & Hp2 & _).
  unfold contains in *.
  split; apply existsb_strip_slash; unfold rebuilt;
    rewrite !existsb_chars_app, ?Hp1, ?Hp2.
  - rewrite (wf_scheme_clean _ _ (fun c H => proj1 (proj2 (proj2 (proj2
      (scheme_char_plain c H))))) Hs).
    by rewrite (existsb_chars_weaken is_netloc_delim _ _ question_is_delim Hn).
  - rewrite (wf_scheme_clean _ _ (fun c H => proj2 (proj2 (proj2 (proj2
      (scheme_char_plain c H))))) Hs).
    by rewrite (existsb_chars_weaken is_netloc_delim _ _ hash_is_delim Hn).
Qed.

Lemma urlparse_suffix base d x :
  d = "?"%char \/ d = "#"%char ->
  contains "?" base = false -> contains "#" base = false ->
  match urlparse chk base with
  | Ret r =>
      exists r', urlparse chk (base +:+ String d x) = Ret r' /\
                 rebuilt r' = rebuilt r
  | Raise => urlparse chk (base +:+ String d x) = Raise
  end.
Proof.
  intros Hd Hq Hh. pose proof (urlsplit_suffix base d x Hd Hq Hh) as Hs.
  unfold urlparse.
  destruct (urlsplit chk base) as [[[[[s n] p] q] f]|].
  - destruct Hs as (q' & f' & ->). simpl.
    destruct (_ && _); [destruct (splitparams p)|]; eauto.
  - by rewrite Hs.
Qed.

(** A query string and a fragment leave no trace in the normal form. *)
Lemma normalize_url_suffix base d x :
  d = "?"%char \/ d = "#"%char ->
  base <> "" -> contains "?" base = false -> contains "#" base = false ->
  normalize (Some (base +:+ String d x)) = normalize (Some base).
Proof.
  intros Hd Hb Hq Hh. pose proof (urlparse_suffix base d x Hd Hq Hh) as Hp.
  assert (base +:+ String d x <> "") as Hne by by destruct base.
  destruct (urlparse chk base) as [r|] eqn:Hr.
  - destruct Hp as (r' & Hr' & Hreb).
    rewrite (normalize_url_eq _ r' Hne Hr'), (normalize_url_eq _ r Hb Hr).
    by rewrite Hreb.
  - by rewrite !normalize_url_raise.
Qed.

(** *** Normalising a normalised URL *)

Lemma ends_with_contains c s : ends_with c s = true -> contains c s = true.
Proof.
  unfold contains. induction s as [|a s IH]; [done|].
  destruct s as [|b s'].
  - simpl. intros ->%Ascii.eqb_eq. by rewrite Ascii.eqb_refl.
  - intros H. change (Ascii.eqb c a || existsb_chars (Ascii.eqb c) (String b s')
                      = true).
    rewrite IH by done. apply orb_true_r.
Qed.

Lemma rooted_contains_slash c t :
  rooted (String c t) = true -> contains "/" (String c t) = true.
Proof.
  simpl. intros ->%Ascii.eqb_eq. done.
Qed.

Lemma rooted_drop_last p : rooted p = true -> rooted (drop_last p) = true.
Proof.
  destruct p as [|c [|c' t]]; try done.
Qed.

(** A URL put together from well-formed parts parses back into them, so
    normalising it only strips its last slash. *)
Lemma normalize_rebuilt s n p :
  wf_scheme s = true ->
  existsb_chars is_netloc_delim n = false ->
  existsb_chars is_unsafe_url_byte n = false ->
  netloc_ok chk n = true ->
  existsb_chars is_unsafe_url_byte p = false ->
  contains "?" p = false -> contains "#" p = false ->
  rooted p = true ->
  contains ";" (last_segment ((s +:+ "://" +:+ n) +:+ p)) = false ->
  normalize (Some ((s +:+ "://" +:+ n) +:+ p))
  = Ret (Some (strip_slash ((s +:+ "://" +:+ n) +:+ p))).
Proof.
  intros Hwf Hn1 Hn2 Hok Hp1 Hp2 Hp3 Hroot Hsemi.
  assert (contains ";" (last_segment p) = false) as Hsemi'.
  { destruct p as [|c t]; [done|].
    by rewrite last_segment_app in Hsemi by by apply rooted_contains_slash. }
  assert ((s +:+ "://" +:+ n) +:+ p = s +:+ "://" +:+ n +:+ p) as Hassoc
    by by rewrite !append_assoc.
  rewrite Hassoc.
  rewrite (normalize_url_eq _ (mkParseResult s n p "" "" "")).
  - done.
  - destruct (wf_scheme_facts s Hwf) as (_ & _ & c0 & t & -> & _). done.
  - by apply urlparse_rebuild.
Qed.

Lemma normalize_url_again u r n :
  urlparse chk u = Ret r ->
  scheme r <> "" -> netloc r <> "" ->
  normalize (Some u) = Ret (Some n) ->
  contains ";" (last_segment n) = false ->
  normalize (Some n) = Ret (Some (strip_slash n)).
Proof.
  intros Hr Hs Hn Hnorm Hsemi.
  apply normalize_url_some in Hnorm as (Hu & r' & Hr' & ->).
  rewrite Hr in Hr'. injection Hr' as <-.
  apply urlparse_inv in Hr as (Hwf & Hn1 & Hn2 & Hok & Hp1 & Hp2 & Hp3 & Hroot).
  destruct Hwf as [|Hwf]; [done|]. specialize (Hroot Hn).
  assert (rebuilt r = (scheme r +:+ "://" +:+ netloc r) +:+ path r) as Hreb
    by (unfold rebuilt; by rewrite !append_assoc).
  rewrite Hreb in *. clear Hreb.
  destruct (ends_with "/" ((scheme r +:+ "://" +:+ netloc r) +:+ path r))
    eqn:He.
  - assert (strip_slash ((scheme r +:+ "://" +:+ netloc r) +:+ path r)
            = drop_last ((scheme r +:+ "://" +:+ netloc r) +:+ path r)) as Hst
      by (unfold strip_slash; by rewrite He).
    rewrite Hst in *. clear Hst.
    destruct (path r) as [|c t] eqn:Hp.
    { exfalso. rewrite append_empty_r in He.
      destruct (netloc r) as [|a t'] eqn:Hnl; [done|].
      rewrite <- append_assoc, ends_with_app in He.
      apply ends_with_contains in He. unfold contains in He.
      by rewrite (existsb_chars_weaken _ _ _ slash_is_delim Hn1) in He. }
    rewrite drop_last_app in Hsemi |- *.
    apply normalize_rebuilt; try done.
    + by apply existsb_drop_last.
    + by apply existsb_drop_last.
    + by apply existsb_drop_last.
    + by apply rooted_drop_last.
  - assert (strip_slash ((scheme r +:+ "://" +:+ netloc r) +:+ path r)
            = (scheme r +:+ "://" +:+ netloc r) +:+ path r) as Hst
      by (unfold strip_slash; by rewrite He).
    rewrite Hst in *. by apply normalize_rebuilt.
Qed.

Lemma strip_slash_nonempty s a b t :
  strip_slash (s +:+ String a (String b t)) <> "".
Proof.
  unfold strip_slash. destruct (ends_with _ _).
  - rewrite drop_last_app. by destruct s.
  - by destruct s.
Qed.

Lemma normalize_url_nonempty u n : normalize (Some u) = Ret (Some n) -> n <> "".
Proof.
  intros (_ & r & _ & ->)%normalize_url_some. unfold rebuilt.
  apply strip_slash_nonempty.
Qed.

(** ** The claims about URLs *)

(** C3 (as amended).  [is_support_url] is not purely structural.  It
    answers [True] exactly when the normalised URL has the host
    [www.angelone.in] and a path that starts with [/support] and, on top
    of that, the normalised URL is in neither the visited nor the failed
    set of the crawler; so its answer for one URL changes as the crawl
    goes on. *)
Theorem is_support_url_depends_on_state st u n r :
  normalize (Some u) = Ret (Some n) ->
  urlparse chk n = Ret r ->
  exists b, is_support_url chk st (Some u) = Ret b /\
    (b = true <->
     netloc r = "www.angelone.in" /\
     starts_with "/support" (path r) = true /\
     Some n ∉ visited_urls st /\ Some n ∉ failed_urls st).
Proof.
  intros Hn Hr. pose proof (normalize_url_nonempty u n Hn) as Hne.
  apply normalize_url_some in Hn as Hu. destruct Hu as [Hu _].
  unfold is_support_url.
  destruct u as [|c0 u']; [done|]. cbn [is_truthy truthy negb].
  rewrite Hn. cbn [mbind exc_bind]. destruct n as [|c1 n']; [done|].
  case_bool_decide as Hv.
  { exists false. split; [done|]. split; [done|]. by intros (_&_&?&_). }
  rewrite Hr. cbn [mbind exc_bind]. eexists. split; [reflexivity|].
  rewrite !andb_true_iff, negb_true_iff, bool_decide_eq_false, String.eqb_eq.
  tauto.
Qed.

(** C6 (as amended).  For a URL [base] without query and fragment, a
    query string or a fragment (or both) appended to it changes nothing in
    what [normalize_url] returns; that is the scheme, network location and
    path of [base] put together again, free of [?] and [#], and without its
    last character when that is a slash.  The slash goes in every case,
    also when the path is exactly [/]: the three spellings of
    [https://site/support/faq] normalise to it, and [https://site/]
    normalises to [https://site]. *)
Theorem normalize_url_strips_query_fragment_slash base :
  base <> "" -> contains "?" base = false -> contains "#" base = false ->
  (forall q f,
     normalize (Some (base +:+ "?" +:+ q +:+ "#" +:+ f))
     = normalize (Some base)) /\
  (forall q, normalize (Some (base +:+ "?" +:+ q)) = normalize (Some base)) /\
  (forall f, normalize (Some (base +:+ "#" +:+ f)) = normalize (Some base)) /\
  (forall r, urlparse chk base = Ret r ->
     normalize (Some base) = Ret (Some (strip_slash (rebuilt r))) /\
     contains "?" (strip_slash (rebuilt r)) = false /\
     contains "#" (strip_slash (rebuilt r)) = false) /\
  normalize (Some "https://site/support/faq?x=1#top")
    = Ret (Some "https://site/support/faq") /\
  normalize (Some "https://site/support/faq/")
    = Ret (Some "https://site/support/faq") /\
  normalize (Some "https://site/support/faq")
    = Ret (Some "https://site/support/faq") /\
  normalize (Some "https://site/") = Ret (Some "https://site").
Proof.
  intros Hb Hq Hh.
  split; [|split; [|split; [|split; [|by vm_compute]]]].
  - intros q f. apply (normalize_url_suffix base "?"); auto.
  - intros q. apply (normalize_url_suffix base "?"); auto.
  - intros f. apply (normalize_url_suffix base "#"); auto.
  - intros r Hr. pose proof (normalize_url_eq base r Hb Hr) as Hn.
    split; [done|]. by apply (normalize_url_clean base).
Qed.

(** C9 (as amended).  Normalising twice gives what normalising once gives
    for every URL that has a scheme and a network location and whose normal
    form neither ends in a slash nor has a semicolon after its last slash.
    (A normal form can still end in a slash: one slash is stripped, not
    all.) *)
Theorem normalize_url_idempotent_without_trailing_slash u r n :
  urlparse chk u = Ret r ->
  scheme r <> "" -> netloc r <> "" ->
  normalize (Some u) = Ret (Some n) ->
  ends_with "/" n = false ->
  contains ";" (last_segment n) = false ->
  normalize (Some n) = Ret (Some n).
Proof.
  intros Hr Hs Hnl Hn Hend Hsemi.
  rewrite (normalize_url_again u r n) by done.
  unfold strip_slash. by rewrite Hend.
Qed.

End Split.

End UrlProps.

(** * Properties of the crawl *)

Module CrawlProps.
Import PyStr UrlParse Crawler CrawlSpec.

Section Run.

Variable check_bracketed_host : string -> bool.
Variable web : Web.

Local Abbreviation normalize := (normalize_url check_bracketed_host).
Local Abbreviation scrape := (scrape_page_content check_bracketed_host web).
Local Abbreviation body := (loop_body check_bracketed_host web).
Local Abbreviation loop := (crawl_loop check_bracketed_host web).
Local Abbreviation crawl := (crawl_all_support_pages check_bracketed_host web).

Lemma same_but_queue_refl st : same_but_queue st st.
Proof. by repeat split. Qed.

Lemma same_but_queue_trans st1 st2 st3 :
  same_but_queue st1 st2 -> same_but_queue st2 st3 -> same_but_queue st1 st3.
Proof.
  intros (?&?&?&?&?&?) (?&?&?&?&?&?). repeat split; congruence.
Qed.

Lemma same_but_queue_set q st : same_but_queue st (set_queue q st).
Proof. by repeat split. Qed.

Lemma consistent_frame st st' :
  same_but_queue st st' -> consistent st -> consistent st'.
Proof.
  intros (_&_&Hv&Hd&Hf&_) [H1 H2 H3].
  split; unfold scraped_urls in *; rewrite ?Hv, ?Hd, ?Hf; done.
Qed.

Lemma enqueue_links_frame links : forall st,
  same_but_queue st (fst (enqueue_links check_bracketed_host st links)).
Proof.
  induction links as [|link more IH]; intros st; simpl.
  - apply same_but_queue_refl.
  - case_bool_decide; [apply IH|].
    destruct (normalized_queue _ _) as [queued|]; simpl.
    + case_bool_decide; [apply IH|].
      eapply same_but_queue_trans; [apply same_but_queue_set | apply IH].
    + apply same_but_queue_refl.
Qed.

Lemma add_discovered_frame links : forall st,
  same_but_queue st (fst (add_discovered check_bracketed_host st links)).
Proof.
  induction links as [|link more IH]; intros st; simpl.
  - apply same_but_queue_refl.
  - destruct (normalize_url _ link) as [n|]; simpl; [|apply same_but_queue_refl].
    destruct (is_truthy n); [|apply IH].
    destruct (normalized_queue _ _) as [queued|]; simpl.
    + case_bool_decide; [apply IH|].
      eapply same_but_queue_trans; [apply same_but_queue_set | apply IH].
    + apply same_but_queue_refl.
Qed.

(** The ways [scrape_page_content] can end: the handler ran, the content
    was insufficient, or a record for the very URL is returned. *)
Lemma scrape_cases st u :
  exists st1, same_but_queue st st1 /\
    (scrape st u = (add_failed u st1, None) \/
     scrape st u = (st1, None) \/
     exists t c,
       scrape st u = (st1, Some (mkPageRecord u t c (len c) "support_page"))).
Proof.
  unfold scrape_page_content.
  destruct (http_get web u) as [|anchors doc].
  { exists st. split; [apply same_but_queue_refl | by left]. }
  destruct (extract_support_links_from_page _ _ _) as [new_links|].
  2:{ exists st. split; [apply same_but_queue_refl | by left]. }
  pose proof (enqueue_links_frame (elements new_links) st) as Hfr.
  destruct (enqueue_links _ _ _) as [st1 [[]|]]; simpl in Hfr.
  2:{ exists st1. split; [done | by left]. }
  destruct doc as [doc|].
  2:{ exists st1. split; [done | by left]. }
  exists st1. split; [done|].
  destruct (_ && _); [right; right; eauto | right; by left].
Qed.

(** One iteration, seen from outside: either nothing but the queue
    changed (stale entry, or an exception before the page was touched), or
    the normalised URL was new and is now visited, with at most one record,
    for that URL, appended and at most that URL added to the failed set. *)
Lemma body_cases st c st' r :
  body st c = (st', r) ->
  (same_but_queue st st' /\ (r = Raise \/ r = Ret c)) \/
  (exists n,
      (n ∉ visited_urls st) /\
      visited_urls st' = {[n]} ∪ visited_urls st /\
      max_pages st' = max_pages st /\ driver st' = driver st /\
      base_url st' = base_url st /\
      (failed_urls st' = failed_urls st \/
       failed_urls st' = {[n]} ∪ failed_urls st) /\
      ((scraped_data st' = scraped_data st /\ r = Ret c) \/
       (exists rec, url rec = n /\
          scraped_data st' = scraped_data st ++ [rec] /\ r = Ret (c + 1)))).
Proof.
  unfold loop_body. destruct (url_queue st) as [|u rest] eqn:Hq.
  { intros [= <- <-]. left. split; [apply same_but_queue_refl | by left]. }
  destruct (normalize_url _ u) as [n|] eqn:Hn.
  2:{ intros [= <- <-]. left. split; [apply same_but_queue_set | by left]. }
  case_bool_decide as Hin.
  { intros [= <- <-]. left. split; [apply same_but_queue_set | by right]. }
  simpl in Hin.
  destruct (scrape_cases (set_queue rest st) n)
    as (st1 & (Hb&Hm&Hv&Hd&Hf&Hdr) & [Hs|[Hs|(t&cc&Hs)]]);
    rewrite Hs; simpl in *; intros [= <- <-]; right; exists n; simpl;
    rewrite ?Hv, ?Hd, ?Hf, ?Hm, ?Hdr, ?Hb; repeat split; auto.
  right. eexists. repeat split; reflexivity.
Qed.

Lemma body_consistent st c st' r :
  consistent st -> body st c = (st', r) -> consistent st'.
Proof.
  intros Hc Hb. destruct (body_cases _ _ _ _ Hb) as [[Hfr _]|Hn].
  { by eapply consistent_frame. }
  destruct Hn as (n & Hnew & Hv & _ & _ & _ & Hf & Hd).
  destruct Hc as [H1 H2 H3].
  split; unfold scraped_urls in *.
  - rewrite Hv. destruct Hf as [-> | ->]; set_solver.
  - intros u. rewrite Hv.
    destruct Hd as [[-> _]|(rec & Hu & -> & _)].
    + set_solver.
    + rewrite map_app. simpl. rewrite elem_of_app, list_elem_of_singleton.
      intros [?| ->]; set_solver.
  - destruct Hd as [[-> _]|(rec & Hu & -> & _)]; [done|].
    rewrite map_app. simpl. apply NoDup_app. split; [done|]. split.
    + intros x Hx. rewrite list_elem_of_singleton. intros ->.
      apply Hnew, H2. by rewrite <- Hu.
    + apply NoDup_singleton.
Qed.

Lemma loop_consistent patience : forall st c,
  consistent st -> consistent (state_of (loop patience st c)).
Proof.
  induction patience as [|p IH]; intros st c Hc; simpl.
  - by destruct (loop_test st c).
  - destruct (loop_test st c); [|done].
    destruct (body st c) as [st' [c'|]] eqn:Hb.
    + apply IH. by eapply body_consistent.
    + simpl. by eapply body_consistent.
Qed.

Lemma init_consistent base maxp drv : consistent (init base maxp drv).
Proof.
  split; unfold scraped_urls; simpl; [set_solver | set_solver | constructor].
Qed.

Lemma crawl_consistent patience st :
  consistent st -> consistent (state_of (crawl patience st)).
Proof.
  intros Hc. unfold crawl_all_support_pages.
  pose proof (add_discovered_frame (discover_all_support_links
    check_bracketed_host web st) st) as Hfr.
  destruct (add_discovered _ _ _) as [st1 [[]|]]; simpl in Hfr.
  - destruct (unique_queue _ _ _) as [uq|]; simpl.
    + apply loop_consistent. eapply consistent_frame; [|eassumption].
      eapply same_but_queue_trans; [eassumption | apply same_but_queue_set].
    + by eapply consistent_frame.
  - simpl. by eapply consistent_frame.
Qed.

(** What the loop adds to the failed set it also adds to the visited set,
    and it never removes a visited URL. *)
Lemma body_failed_visited st c st' r :
  body st c = (st', r) ->
  visited_urls st ⊆ visited_urls st' /\
  failed_urls st' ⊆ failed_urls st ∪ visited_urls st'.
Proof.
  intros Hb. destruct (body_cases _ _ _ _ Hb) as [[Hfr _]|Hn].
  - destruct Hfr as (_&_&->&_&->&_). set_solver.
  - destruct Hn as (n & _ & -> & _ & _ & _ & [-> | ->] & _); set_solver.
Qed.

Lemma loop_failed_visited patience : forall st c,
  visited_urls st ⊆ visited_urls (state_of (loop patience st c)) /\
  failed_urls (state_of (loop patience st c))
    ⊆ failed_urls st ∪ visited_urls (state_of (loop patience st c)).
Proof.
  induction patience as [|p IH]; intros st c; simpl.
  - destruct (loop_test st c); simpl; set_solver.
  - destruct (loop_test st c); [|simpl; set_solver].
    destruct (body st c) as [st' [c'|]] eqn:Hb;
      apply body_failed_visited in Hb as [Hv Hf]; simpl.
    + destruct (IH st' c') as [Hv' Hf']. set_solver.
    + set_solver.
Qed.

(** The counter follows the records: an iteration adds one to
    [scraped_count] exactly when it appends a record. *)
Lemma body_count st c st' c' :
  body st c = (st', Ret c') ->
  max_pages st' = max_pages st /\
  c' - c = Z.of_nat (length (scraped_data st'))
           - Z.of_nat (length (scraped_data st)).
Proof.
  intros Hb. destruct (body_cases _ _ _ _ Hb) as [[Hfr Hr]|Hn].
  - destruct Hfr as (_&->&_&->&_&_). destruct Hr as [|[= ->]]; [done|].
    split; [done | lia].
  - destruct Hn as (n & _ & _ & -> & _ & _ & _ & Hd). split; [done|].
    destruct Hd as [[-> [= ->]]|(rec & _ & -> & [= ->])]; [lia|].
    rewrite length_app. simpl. lia.
Qed.

Lemma loop_count patience : forall st c st' c',
  c <= max_pages st ->
  loop patience st c = Returned st' c' ->
  max_pages st' = max_pages st /\
  c' <= max_pages st /\
  (url_queue st' = [] \/ c' = max_pages st) /\
  c' - c = Z.of_nat (length (scraped_data st'))
           - Z.of_nat (length (scraped_data st)).
Proof.
  assert (Hexit : forall st c, c <= max_pages st -> loop_test st c = false ->
            url_queue st = [] \/ c = max_pages st).
  { intros st c Hle. unfold loop_test. destruct (url_queue st); [by left|].
    intros ?%Z.ltb_ge. right. lia. }
  induction patience as [|p IH]; intros st c st' c' Hle; simpl;
    destruct (loop_test st c) eqn:Ht; try discriminate;
    try (intros [= <- <-]; repeat split; [done | by apply Hexit | lia]).
  destruct (body st c) as [st1 [c1|]] eqn:Hb; [|discriminate].
  intros Hl. destruct (body_count _ _ _ _ Hb) as [Hm Hc].
  assert (c < max_pages st) as Hlt.
  { unfold loop_test in Ht. destruct (url_queue st); [done|]. lia. }
  assert (c1 <= c + 1) as Hstep.
  { destruct (body_cases _ _ _ _ Hb) as [[_ [|[= ->]]]|(n&_&_&_&_&_&_&Hd)];
      [done | lia |].
    destruct Hd as [[_ [= ->]]|(rec & _ & _ & [= ->])]; lia. }
  apply IH in Hl; [|lia]. rewrite Hm in Hl. destruct Hl as (->&?&?&?).
  repeat split; [done | done | lia].
Qed.

(** The loop leaves at once when the queue is empty, whatever the count. *)
Lemma loop_empty_queue patience st c :
  url_queue st = [] -> loop patience st c = Returned st c.
Proof.
  intros Hq. destruct patience; simpl; unfold loop_test; by rewrite Hq.
Qed.

(** More patience does not change a run that was not interrupted. *)
Lemma loop_patience_mono p : forall p' st c,
  (p <= p')%nat -> interrupted (loop p st c) = false ->
  loop p' st c = loop p st c.
Proof.
  induction p as [|p IH]; intros p' st c Hle; simpl.
  - destruct (loop_test st c) eqn:Ht; [done|]. intros _.
    destruct p'; simpl; by rewrite Ht.
  - destruct p' as [|p']; [lia|]. simpl.
    destruct (loop_test st c); [|done].
    destruct (body st c) as [st1 [c1|]]; [|done]. apply IH. lia.
Qed.

(** *** Termination on a bounded site *)

Lemma collect_links_elem st anchors : forall acc x,
  x ∈ (collect_links check_bracketed_host st anchors acc).1 ->
  x ∈ acc \/ exists a, a ∈ anchors /\ normalize a = Ret x.
Proof.
  induction anchors as [|a more IH]; intros acc x; simpl; [by left|].
  destruct (normalize_url _ a) as [n|] eqn:Hn; simpl; [|by left].
  destruct (is_support_url _ _ n) as [[]|]; simpl; [| |by left].
  - intros [Hx|(a' & ? & ?)]%IH.
    + apply elem_of_union in Hx as [->%elem_of_singleton|]; [|by left].
      right. exists a. split; [left | done].
    + right. exists a'. split; [by right | done].
  - intros [Hx|(a' & ? & ?)]%IH; [by left|].
    right. exists a'. split; [by right | done].
Qed.

Lemma enqueue_links_elem links : forall st x,
  x ∈ url_queue (enqueue_links check_bracketed_host st links).1 ->
  x ∈ url_queue st \/ x ∈ links.
Proof.
  induction links as [|link more IH]; intros st x; simpl; [by left|].
  case_bool_decide.
  { intros [|]%IH; [by left | right; by right]. }
  destruct (normalized_queue _ _) as [queued|]; simpl; [|by left].
  case_bool_decide.
  { intros [|]%IH; [by left | right; by right]. }
  intros [Hx|]%IH; [|right; by right]. simpl in Hx.
  apply elem_of_app in Hx as [?| ->%list_elem_of_singleton]; [by left|].
  right. left.
Qed.

Lemma scrape_queue_elem st u x :
  x ∈ url_queue (scrape st u).1 ->
  x ∈ url_queue st \/
  exists anchors doc a,
    http_get web u = Fetched anchors doc /\ a ∈ anchors /\ normalize a = Ret x.
Proof.
  unfold scrape_page_content.
  destruct (http_get web u) as [|anchors doc] eqn:Hget; simpl; [by left|].
  unfold extract_support_links_from_page.
  pose proof (collect_links_elem st anchors ∅) as Hcol.
  destruct (collect_links _ _ _ _) as [links [[]|]]; simpl in *; [|by left].
  pose proof (enqueue_links_elem (elements links) st) as Henq.
  assert (forall y, y ∈ url_queue (enqueue_links check_bracketed_host st
                                     (elements links)).1 ->
            y ∈ url_queue st \/
            exists anchors0 doc0 a, Fetched anchors doc = Fetched anchors0 doc0
              /\ a ∈ anchors0 /\ normalize a = Ret y) as Hall.
  { intros y [|Hy]%Henq; [by left|]. right.
    apply elem_of_elements, Hcol in Hy as [Hy|(a & ? & ?)]; [set_solver|].
    by exists anchors, doc, a. }
  destruct (enqueue_links _ _ _) as [st1 [[]|]]; simpl in *;
    [|by apply Hall].
  destruct doc as [d|]; simpl; [|by apply Hall].
  destruct (_ && _); simpl; by apply Hall.
Qed.

Section Bounded.

Variable V : gset pyurl.
Hypothesis site : bounded_site check_bracketed_host web V.

Local Abbreviation queue_in := (CrawlSpec.queue_in check_bracketed_host).
Local Abbreviation queue_forms := (CrawlSpec.queue_forms check_bracketed_host).

Lemma body_progress V' st c st' c' :
  V ⊆ V' -> queue_in V' st ->
  body st c = (st', Ret c') ->
  queue_in V' st' /\
  ((visited_urls st' = visited_urls st /\
    (length (url_queue st') < length (url_queue st))%nat) \/
   (size (V' ∖ visited_urls st') < size (V' ∖ visited_urls st))%nat).
Proof.
  intros HV Hq. unfold loop_body.
  destruct (url_queue st) as [|u rest] eqn:Hqu; [done|].
  destruct (normalize_url _ u) as [n|] eqn:Hn; [|done].
  assert (queue_in V' (set_queue rest st)) as Hq'.
  { intros x m Hx. apply Hq. rewrite Hqu. by right. }
  case_bool_decide as Hin.
  { intros [= <- <-]. split; [done|]. left. simpl. split; [done | lia]. }
  simpl in Hin.
  pose proof (scrape_queue_elem (set_queue rest st) n) as Hel.
  destruct (scrape_cases (set_queue rest st) n)
    as (st1 & (_&_&Hv&_&_&_) & Hs).
  assert (n ∈ V') as HnV. { apply (Hq u); [rewrite Hqu; left | done]. }
  assert (queue_in V' (scrape (set_queue rest st) n).1) as Hq1.
  { intros x m [Hx|(anchors & doc & a & Hget & Ha & Hax)]%Hel Hm.
    - by apply (Hq' x).
    - apply HV. by eapply site. }
  assert (size (V' ∖ ({[n]} ∪ visited_urls st))
          < size (V' ∖ visited_urls st))%nat as Hlt.
  { apply subset_size. set_solver. }
  simpl in Hv.
  destruct Hs as [Hs|[Hs|(t&cc&Hs)]]; rewrite Hs in Hq1 |- *; simpl in *;
    intros [= <- <-]; (split; [done|]); right; simpl; by rewrite Hv.
Qed.

Lemma loop_terminates_from V' :
  V ⊆ V' ->
  forall st c, queue_in V' st ->
  exists patience, interrupted (loop patience st c) = false.
Proof.
  intros HV st.
  remember (size (V' ∖ visited_urls st)) as m eqn:Hm.
  revert st Hm. induction (lt_wf m) as [m _ IHm]. intros st Hm.
  remember (length (url_queue st)) as k eqn:Hk.
  revert st Hm Hk. induction (lt_wf k) as [k _ IHk]. intros st Hm Hk c Hq.
  destruct (loop_test st c) eqn:Ht.
  2:{ exists 0%nat. simpl. by rewrite Ht. }
  destruct (body st c) as [st1 [c1|]] eqn:Hb.
  2:{ exists 1%nat. simpl. by rewrite Ht, Hb. }
  destruct (body_progress V' _ _ _ _ HV Hq Hb) as [Hq1 [[Hv Hlen]|Hsz]].
  - destruct (IHk (length (url_queue st1))) with (st := st1) (c := c1)
      as [p Hp]; [lia | by rewrite Hv | done | done |].
    exists (S p). simpl. by rewrite Ht, Hb.
  - destruct (IHm (size (V' ∖ visited_urls st1))) with (st := st1) (c := c1)
      as [p Hp]; [lia | done | done |].
    exists (S p). simpl. by rewrite Ht, Hb.
Qed.

Lemma queue_in_forms st : queue_in (V ∪ queue_forms (url_queue st)) st.
Proof.
  intros x n Hx Hn. apply elem_of_union_r. unfold CrawlSpec.queue_forms.
  apply elem_of_list_to_set, list_elem_of_omap. exists x. by rewrite Hn.
Qed.

Lemma loop_terminates st c :
  exists patience, forall p, (patience <= p)%nat ->
    interrupted (loop p st c) = false.
Proof.
  destruct (loop_terminates_from (V ∪ queue_forms (url_queue st)))
    with (st := st) (c := c) as [p Hp];
    [set_solver | apply queue_in_forms |].
  exists p. intros p' Hle. by rewrite (loop_patience_mono p p').
Qed.

End Bounded.

(** *** Extraction *)

Lemma clean_text_tight t : clean_text t = "" \/ tight (clean_text t) = true.
Proof.
  unfold clean_text. destruct (truthy t); simpl; [|by left].
  set (ls := List.filter _ _).
  destruct ls as [|l ls'] eqn:Hls; [by left|]. right.
  apply PyStrProps.join_tight; [done|]. rewrite <- Hls. subst ls.
  apply Forall_forall. intros l0 [Hin Hk]%list_elem_of_In%filter_In.
  apply in_map_iff in Hin as (l1 & <- & _).
  destruct (PyStrProps.strip_tight l1) as [He|Ht]; [|done].
  rewrite He in Hk. done.
Qed.

Lemma strip_clean_text t : strip (clean_text t) = clean_text t.
Proof.
  apply PyStrProps.strip_idempotent_on_tight_or_empty, clean_text_tight.
Qed.

Lemma scrape_with_selenium_tight st u :
  scrape_with_selenium web st u = "" \/
  tight (scrape_with_selenium web st u) = true.
Proof.
  unfold scrape_with_selenium. destruct (driver st); cbn [negb]; [|by left].
  destruct (render web u) as [doc|]; [|by left].
  destruct (first_selected _ _); [apply clean_text_tight|].
  destruct (page_body doc); [apply clean_text_tight | by left].
Qed.

Lemma scrape_with_selenium_driver st st' u :
  driver st' = driver st ->
  scrape_with_selenium web st' u = scrape_with_selenium web st u.
Proof. unfold scrape_with_selenium. by intros ->. Qed.

Lemma page_text_driver st st' u doc :
  driver st' = driver st -> page_text web st' u doc = page_text web st u doc.
Proof.
  intros Hd. unfold page_text, with_rendered_fallback.
  by rewrite Hd, (scrape_with_selenium_driver st st' u Hd).
Qed.

(** The final text has no white space to strip. *)
Lemma strip_page_text st u doc :
  strip (page_text web st u doc) = page_text web st u doc.
Proof.
  apply PyStrProps.strip_idempotent_on_tight_or_empty.
  unfold page_text, with_rendered_fallback.
  destruct (andb _ (driver st)); [|apply clean_text_tight].
  destruct (andb _ _); [apply scrape_with_selenium_tight | apply clean_text_tight].
Qed.

(** The length test of the final gate, on the text itself. *)
Lemma final_gate st u doc :
  truthy (page_text web st u doc)
  && (50 <? len (strip (page_text web st u doc)))
  = (50 <? len (page_text web st u doc)).
Proof.
  rewrite strip_page_text.
  destruct (50 <? len _) eqn:Hlen; [|apply andb_false_r].
  rewrite andb_true_r. apply PyStrProps.truthy_len.
  apply Z.ltb_lt in Hlen. lia.
Qed.

(** [scrape_page_content] when the [try] block raises ... *)
Lemma scrape_raises st u :
  try_raises check_bracketed_host web st u = true ->
  exists st1, same_but_queue st st1 /\ scrape st u = (add_failed u st1, None).
Proof.
  unfold try_raises, scrape_page_content.
  destruct (http_get web u) as [|anchors doc].
  { intros _. exists st. split; [apply same_but_queue_refl | done]. }
  destruct (extract_support_links_from_page _ _ _) as [new_links|].
  2:{ intros _. exists st. split; [apply same_but_queue_refl | done]. }
  pose proof (enqueue_links_frame (elements new_links) st) as Hfr.
  destruct (enqueue_links _ _ _) as [st1 [[]|]]; simpl in Hfr.
  2:{ intros _. by exists st1. }
  destruct doc as [doc|]; [done|]. intros _. by exists st1.
Qed.

(** ... and when it does not. *)
Lemma scrape_returns st u :
  try_raises check_bracketed_host web st u = false ->
  exists st1 anchors doc,
    same_but_queue st st1 /\
    http_get web u = Fetched anchors (Ret doc) /\
    scrape st u =
      (st1,
       if 50 <? len (page_text web st u doc)
       then Some (mkPageRecord u
                    (match page_title doc with
                     | Some t => strip t
                     | None => ""
                     end)
                    (page_text web st u doc)
                    (len (page_text web st u doc)) "support_page")
       else None).
Proof.
  unfold try_raises, scrape_page_content.
  destruct (http_get web u) as [|anchors doc]; [done|].
  destruct (extract_support_links_from_page _ _ _) as [new_links|]; [|done].
  pose proof (enqueue_links_frame (elements new_links) st) as Hfr.
  destruct (enqueue_links _ _ _) as [st1 [[]|]]; simpl in Hfr; [|done].
  destruct doc as [doc|]; [|done]. intros _.
  exists st1, anchors, doc. split; [done|]. split; [done|].
  assert (driver st1 = driver st) as Hd by apply Hfr.
  fold (page_text web st1 u doc).
  rewrite final_gate, (page_text_driver st st1 u doc Hd).
  by destruct (50 <? len _).
Qed.

(** Whatever the page gives, the iteration leaves its URL visited. *)
Lemma body_marks_visited st c u rest n :
  url_queue st = u :: rest -> normalize u = Ret n ->
  n ∈ visited_urls (body st c).1.
Proof.
  intros Hq Hn. unfold loop_body. rewrite Hq, Hn.
  case_bool_decide as Hin; [done|].
  destruct (scrape_cases (set_queue rest st) n)
    as (st1 & _ & [Hs|[Hs|(t&cc&Hs)]]); rewrite Hs; simpl; set_solver.
Qed.

(** *** What an interrupted loop leaves behind *)

Lemma body_extends st c st' r :
  body st c = (st', r) ->
  (exists more, scraped_data st' = scraped_data st ++ more) /\
  failed_urls st ⊆ failed_urls st'.
Proof.
  intros Hb. destruct (body_cases _ _ _ _ Hb) as [[Hfr _]|Hn].
  - destruct Hfr as (_&_&_&->&->&_). split; [exists []; by rewrite app_nil_r|done].
  - destruct Hn as (n & _ & _ & _ & _ & _ & Hf & Hd). split.
    + destruct Hd as [[-> _]|(rec & _ & -> & _)];
        [exists []; by rewrite app_nil_r | by exists [rec]].
    + destruct Hf as [-> | ->]; set_solver.
Qed.

Lemma loop_extends patience : forall st c,
  (exists more,
     scraped_data (state_of (loop patience st c)) = scraped_data st ++ more) /\
  failed_urls st ⊆ failed_urls (state_of (loop patience st c)).
Proof.
  assert (forall st : crawler,
            (exists more, scraped_data st = scraped_data st ++ more) /\
            failed_urls st ⊆ failed_urls st) as Hrefl.
  { intros st. split; [exists []; by rewrite app_nil_r | done]. }
  induction patience as [|p IH]; intros st c; simpl.
  - destruct (loop_test st c); apply Hrefl.
  - destruct (loop_test st c); [|apply Hrefl].
    destruct (body st c) as [st1 [c1|]] eqn:Hb;
      apply body_extends in Hb as [[m1 Hm1] Hf1]; simpl.
    + destruct (IH st1 c1) as [[m2 Hm2] Hf2]. split; [|set_solver].
      exists (m1 ++ m2). by rewrite Hm2, Hm1, app_assoc.
    + split; [by exists m1 | done].
Qed.

(** ** The claims about the crawl *)

(** C1 (as amended).  The visited and the failed set are not disjoint:
    whatever the site and however long the run of [crawl_all_support_pages]
    on a fresh crawler lasts (it may return, raise or be interrupted at an
    iteration boundary), every failed URL is also a visited URL, so the
    intersection of the two sets is the failed set itself; and the URL of
    every page record collected is in the visited set. *)
Theorem failed_and_scraped_are_visited patience base maxp drv :
  let st := state_of (crawl patience (init base maxp drv)) in
  failed_urls st ⊆ visited_urls st /\
  visited_urls st ∩ failed_urls st = failed_urls st /\
  forall rec, rec ∈ scraped_data st -> url rec ∈ visited_urls st.
Proof.
  intros st.
  destruct (crawl_consistent patience _ (init_consistent base maxp drv))
    as [Hf Hs _].
  fold st in Hf, Hs. split; [done|]. split; [set_solver|].
  intros rec Hrec. apply Hs. unfold scraped_urls.
  apply list_elem_of_fmap. by exists rec.
Qed.

(** C2 (as amended).  When a statement inside the [try] of
    [scrape_page_content] raises (the request, the parser, the link
    harvest), the function returns [None] and the URL is added to the failed
    set.  When none raises, the failed set is left as it is, and the
    function returns a page record exactly when the final text is longer
    than 50 characters: a text of 50 characters or fewer, 50 included, gives
    [None].  In every case the driver loop then adds the URL to the visited
    set, so a failed URL ends in both sets and an insufficient one in the
    visited set only. *)
Theorem scrape_page_content_outcomes st u :
  (try_raises check_bracketed_host web st u = true ->
     (scrape st u).2 = None /\
     failed_urls (scrape st u).1 = {[u]} ∪ failed_urls st) /\
  (try_raises check_bracketed_host web st u = false ->
     exists anchors doc,
       http_get web u = Fetched anchors (Ret doc) /\
       failed_urls (scrape st u).1 = failed_urls st /\
       (len (page_text web st u doc) <= 50 -> (scrape st u).2 = None) /\
       (50 < len (page_text web st u doc) ->
          exists rec, (scrape st u).2 = Some rec /\ url rec = u /\
            content rec = page_text web st u doc /\
            content_length rec = len (page_text web st u doc))) /\
  (forall c u0 rest,
     url_queue st = u0 :: rest -> normalize u0 = Ret u ->
     u ∈ visited_urls (body st c).1).
Proof.
  split; [|split].
  - intros (st1 & Hfr & ->)%scrape_raises. split; [done|]. simpl.
    by destruct Hfr as (_&_&_&_&->&_).
  - intros (st1 & anchors & doc & Hfr & Hget & ->)%scrape_returns.
    exists anchors, doc. split; [done|]. simpl.
    split; [by destruct Hfr as (_&_&_&_&->&_)|]. split.
    + intros Hle. by rewrite (proj2 (Z.ltb_ge _ _) Hle).
    + intros Hlt. rewrite (proj2 (Z.ltb_lt _ _) Hlt). eauto.
  - intros c u0 rest. apply body_marks_visited.
Qed.

(** C4 (as amended).  An interrupted loop leaves what it has collected in
    the crawler object: the records it started with and those appended
    since, and every failed URL.  The summary [save_data] builds from such a
    state counts them, 3 pages and 1 failed URL after three successes and
    one failure.  But [main] calls [save_data] only after
    [crawl_all_support_pages] has returned: when the run is interrupted
    nothing is saved. *)
Theorem interrupted_run_keeps_but_does_not_save patience st c :
  let o := loop patience st c in
  (exists more, scraped_data (state_of o) = scraped_data st ++ more) /\
  failed_urls st ⊆ failed_urls (state_of o) /\
  (length (scraped_data (state_of o)) = 3%nat ->
   size (failed_urls (state_of o)) = 1%nat ->
   total_pages_scraped (crawl_info (save_data (state_of o))) = 3 /\
   failed_urls_count (crawl_info (save_data (state_of o))) = 1 /\
   support_pages (save_data (state_of o)) = scraped_data (state_of o)) /\
  (interrupted o = true -> main_saves o = None).
Proof.
  intros o. destruct (loop_extends patience st c) as [He Hf].
  split; [done|]. split; [done|]. split.
  - intros Hl Hs. simpl. by rewrite Hl, Hs.
  - by destruct o.
Qed.

(** C5.  The driver loop leaves at once when the queue is empty, whatever
    the count of successes.  On a site whose links lie in a finite set it
    always ends, however long its queue: some number of iterations suffices
    and no run of as many or more iterations is still going.  When it
    returns with URLs left in the queue, exactly [max_pages] pages were
    scraped; the count never passes [max_pages] and grows by one exactly
    when a record is appended, so failed and insufficient pages do not
    count. *)
Theorem loop_stops_at_empty_queue_or_cap st :
  0 <= max_pages st ->
  (url_queue st = [] -> forall patience, loop patience st 0 = Returned st 0) /\
  (forall V, bounded_site check_bracketed_host web V ->
     exists patience, forall p, (patience <= p)%nat ->
       interrupted (loop p st 0) = false) /\
  (forall patience st' n,
     loop patience st 0 = Returned st' n ->
     n <= max_pages st /\
     (url_queue st' <> [] -> n = max_pages st) /\
     n = Z.of_nat (length (scraped_data st'))
         - Z.of_nat (length (scraped_data st))).
Proof.
  intros Hmax. split; [|split].
  - intros Hq patience. by apply loop_empty_queue.
  - intros V Hsite. by apply (loop_terminates V).
  - intros patience st' n Hl.
    apply loop_count in Hl as (_ & Hle & Hor & Hn); [|done].
    split; [done|]. split; [|lia]. intros Hq. by destruct Hor.
Qed.

(** C7.  No URL occurs twice among the page records of a run, whether the
    run is [crawl_all_support_pages] on a fresh crawler or the driver loop
    started on a queue of any content, duplicates included, and wherever the
    run stops. *)
Theorem no_url_scraped_twice patience base maxp drv q :
  NoDup (scraped_urls (state_of (crawl patience (init base maxp drv)))) /\
  NoDup (scraped_urls
           (state_of (loop patience (set_queue q (init base maxp drv)) 0))).
Proof.
  split.
  - apply crawl_consistent, init_consistent.
  - apply loop_consistent. eapply consistent_frame;
      [apply same_but_queue_set | apply init_consistent].
Qed.

(** C8.  With a driver at hand and fewer than 200 characters of cleaned
    static text, the page is fetched again through the driver and the final
    text is the rendered one exactly when it is strictly longer than the
    static one; with 150 static and 400 rendered characters the page record
    returned carries the 400 rendered characters. *)
Theorem rendered_text_replaces_short_static_text st u anchors doc :
  driver st = true ->
  http_get web u = Fetched anchors (Ret doc) ->
  try_raises check_bracketed_host web st u = false ->
  len (clean_text (static_content doc)) < 200 ->
  let static := clean_text (static_content doc) in
  let rendered := scrape_with_selenium web st u in
  page_text web st u doc
    = (if len static <? len rendered then rendered else static) /\
  (len static = 150 -> len rendered = 400 ->
   exists rec, (scrape st u).2 = Some rec /\
     content rec = rendered /\ content_length rec = 400).
Proof.
  intros Hdrv Hget Hok Hshort static rendered.
  assert (page_text web st u doc
          = (if len static <? len rendered then rendered else static)) as Htext.
  { unfold page_text, with_rendered_fallback.
    rewrite Hdrv, (proj2 (Z.ltb_lt _ _) Hshort). fold static rendered.
    cbn [andb].
    destruct (len static <? len rendered) eqn:Hlt; [|by rewrite andb_false_r].
    rewrite andb_true_r.
    assert (truthy rendered = true) as ->; [|done].
    apply PyStrProps.truthy_len. apply Z.ltb_lt in Hlt.
    pose proof (PyStrProps.len_nonneg static). lia. }
  split; [done|]. intros Hs Hr.
  apply scrape_returns in Hok as (st1 & anchors' & doc' & _ & Hget' & ->).
  rewrite Hget in Hget'. injection Hget' as <- <-.
  rewrite Htext, Hs, Hr. simpl. rewrite Hr. simpl. eauto.
Qed.

(** C10.  Whatever a page gives (a record, a fetch failure, insufficient
    content), the iteration that pops its URL leaves the normalised URL in
    the visited set; and however a run of the driver loop ends, every URL
    it has added to the failed set is in the visited set. *)
Theorem processed_urls_are_visited st c u rest n :
  url_queue st = u :: rest ->
  normalize u = Ret n ->
  n ∈ visited_urls (body st c).1 /\
  forall patience x,
    x ∈ failed_urls (state_of (loop patience st c)) ->
    x ∈ failed_urls st \/ x ∈ visited_urls (state_of (loop patience st c)).
Proof.
  intros Hq Hn. split; [by eapply body_marks_visited|].
  intros patience x Hx.
  destruct (loop_failed_visited patience st c) as [_ Hf].
  apply Hf in Hx. set_solver.
Qed.

End Run.

End CrawlProps.

(** * More about the code of the crawler *)

(** ** [clean_text] *)

Module CleanProps.
Import PyStr UrlParse Crawler CrawlSpec MoreSpec PyStrProps.

#[local] Arguments String.append !_ _ : simpl nomatch.

Local Abbreviation nl := ("010"%char).

(** *** Splitting and joining lines *)

Lemma split_nonempty c s : split c s <> [].
Proof.
  destruct s as [|a t]; simpl; [done|].
  destruct (Ascii.eqb a c); [done|]. by destruct (split c t).
Qed.

Lemma split_none c l : contains c l = false -> split c l = [l].
Proof.
  unfold contains. induction l as [|a t IH]; simpl; [done|].
  intros [Ha Ht]%orb_false_iff. rewrite Ascii.eqb_sym, Ha. by rewrite IH.
Qed.

Lemma split_app c l rest :
  contains c l = false -> split c (l +:+ String c rest) = l :: split c rest.
Proof.
  unfold contains. induction l as [|a t IH]; simpl.
  - intros _. by rewrite Ascii.eqb_refl.
  - intros [Ha Ht]%orb_false_iff. rewrite Ascii.eqb_sym, Ha. by rewrite IH.
Qed.

Lemma split_no_sep c s : Forall (fun l => contains c l = false) (split c s).
Proof.
  unfold contains. induction s as [|a t IH]; simpl.
  - by repeat constructor.
  - destruct (Ascii.eqb a c) eqn:Ha; [by constructor|].
    destruct (split c t) as [|l ls]; [by repeat constructor; simpl;
      rewrite Ascii.eqb_sym, Ha|].
    inversion IH as [|? ? Hl Hls]; subst. constructor; [|done].
    simpl. by rewrite Ascii.eqb_sym, Ha, Hl.
Qed.

Lemma join_cons sep l l' ls :
  join sep (l :: l' :: ls) = l +:+ sep +:+ join sep (l' :: ls).
Proof. reflexivity. Qed.

Lemma join_split c s : join (String c "") (split c s) = s.
Proof.
  induction s as [|a t IH]; [done|]. simpl.
  pose proof (split_nonempty c t) as Hne.
  destruct (Ascii.eqb_spec a c) as [->|_].
  - destruct (split c t) as [|l ls]; [done|]. by rewrite join_cons, IH.
  - destruct (split c t) as [|l [|l' ls]]; [done| |].
    + unfold join in *. simpl in *. by rewrite IH.
    + by rewrite <- IH, !join_cons.
Qed.

Lemma split_join c ls :
  ls <> [] -> Forall (fun l => contains c l = false) ls ->
  split c (join (String c "") ls) = ls.
Proof.
  intros Hne Hall. induction Hall as [|l ls Hl Hall IH]; [done|].
  destruct ls as [|l' ls'].
  - unfold join. simpl. by apply split_none.
  - rewrite join_cons. change (String c "" +:+ ?x) with (String c x).
    rewrite split_app by done. by rewrite IH.
Qed.

(** *** What stripping keeps *)

Lemma existsb_drop_while_end p q s :
  existsb_chars q s = false -> existsb_chars q (drop_while_end p s) = false.
Proof.
  induction s as [|a t IH]; simpl; [done|].
  intros [Ha Ht]%orb_false_iff. specialize (IH Ht).
  destruct (drop_while_end p t) as [|b r].
  - destruct (p a); simpl; [done | by rewrite Ha].
  - simpl in *. by rewrite Ha, IH.
Qed.

Lemma existsb_strip q s :
  existsb_chars q s = false -> existsb_chars q (strip s) = false.
Proof. intros H. by apply existsb_drop_while_end, existsb_drop_while. Qed.

Lemma len_cons a s : len (String a s) = 1 + len s.
Proof. unfold len. simpl String.length. lia. Qed.

Lemma len_drop_while p s : len (drop_while p s) <= len s.
Proof.
  induction s as [|a t IH]; simpl; [done|].
  destruct (p a); [|done]. rewrite len_cons. lia.
Qed.

Lemma len_drop_while_end p s : len (drop_while_end p s) <= len s.
Proof.
  induction s as [|a t IH]; simpl; [done|]. rewrite len_cons.
  destruct (drop_while_end p t) as [|b r].
  - pose proof (len_nonneg t). destruct (p a); [|rewrite len_cons];
      change (len "") with 0 in *; lia.
  - rewrite !len_cons in *. lia.
Qed.

Lemma len_strip s : len (strip s) <= len s.
Proof.
  unfold strip. pose proof (len_drop_while is_space s).
  pose proof (len_drop_while_end is_space (drop_while is_space s)). lia.
Qed.

(** The length of the lines of a text, each counted with a separator. *)
Lemma len_join c ls :
  ls <> [] ->
  len (join (String c "") ls) = foldr (fun l n => len l + 1 + n) 0 ls - 1.
Proof.
  intros Hne. induction ls as [|l ls IH]; [done|].
  destruct ls as [|l' ls'].
  - unfold join. simpl. lia.
  - rewrite join_cons, !len_app, IH by done.
    change (len (String c "")) with 1. simpl. lia.
Qed.

(** *** The lines [clean_text] keeps *)

Lemma kept_lines_weight ls :
  foldr (fun l n => len l + 1 + n) 0 (List.filter kept (List.map strip ls))
  <= foldr (fun l n => len l + 1 + n) 0 ls.
Proof.
  induction ls as [|l ls IH]; simpl; [done|].
  pose proof (len_strip l). pose proof (len_nonneg l).
  destruct (kept (strip l)); simpl; lia.
Qed.

Lemma kept_lines_spec t :
  Forall (fun l => tight l = true /\ kept l = true /\ contains nl l = false)
         (List.filter kept (List.map strip (split nl t))).
Proof.
  apply Forall_forall. intros l [Hin Hk]%list_elem_of_In%filter_In.
  apply in_map_iff in Hin as (l0 & <- & Hin0).
  split; [|split; [done|]].
  - destruct (strip_tight l0) as [He|Ht]; [|done]. by rewrite He in Hk.
  - apply existsb_strip.
    pose proof (split_no_sep nl t) as Hall.
    rewrite Forall_forall in Hall. by apply Hall, list_elem_of_In.
Qed.

Lemma clean_text_lines t :
  clean_text t
  = join (String nl "") (List.filter kept (List.map strip (split nl t))).
Proof.
  unfold clean_text. destruct t as [|a t']; [done|]. done.
Qed.

Lemma split_clean_text t :
  clean_text t <> "" ->
  split nl (clean_text t)
  = List.filter kept (List.map strip (split nl t)).
Proof.
  rewrite clean_text_lines. intros Hne.
  apply split_join.
  - intros Hnil. by rewrite Hnil in Hne.
  - eapply Forall_impl; [apply kept_lines_spec|]. by intros l (_&_&?).
Qed.

(** X1.  Cleaning is idempotent: a cleaned text is left as it is by a
    second [clean_text]. *)
Theorem clean_text_idempotent t : clean_text (clean_text t) = clean_text t.
Proof.
  destruct (String.eqb_spec (clean_text t) "") as [->|Hne]; [done|].
  rewrite (clean_text_lines (clean_text t)), (split_clean_text t Hne).
  rewrite (clean_text_lines t). f_equal.
  pose proof (kept_lines_spec t) as Hall.
  induction Hall as [|l ls (Ht & Hk & _) Hall IH]; [done|].
  simpl. by rewrite (strip_of_tight l Ht), Hk, IH.
Qed.

(** X2.  Every line of a non-empty cleaned text has more than three
    characters and no white space at either end; in particular there is no
    blank line in it. *)
Theorem clean_text_lines_long_and_stripped t :
  clean_text t <> "" ->
  Forall (fun l => 3 < len l /\ strip l = l /\ starts_nonspace l = true)
         (split nl (clean_text t)).
Proof.
  intros Hne. rewrite (split_clean_text t Hne).
  eapply Forall_impl; [apply kept_lines_spec|].
  intros l (Ht & Hk & _). unfold kept in Hk.
  apply andb_true_iff in Hk as [_ Hlen%Z.ltb_lt].
  split; [done|]. split; [by apply strip_of_tight|].
  unfold tight in Ht. by apply andb_true_iff in Ht as [? _].
Qed.

(** X3.  Cleaning never makes a text longer. *)
Theorem clean_text_not_longer t : len (clean_text t) <= len t.
Proof.
  rewrite clean_text_lines.
  destruct (List.filter kept (List.map strip (split nl t))) as [|l ls] eqn:Hls.
  { apply len_nonneg. }
  rewrite len_join by done. rewrite <- Hls.
  pose proof (kept_lines_weight (split nl t)) as Hw.
  rewrite <- (join_split nl t) at 2.
  rewrite len_join by apply split_nonempty. lia.
Qed.

End CleanProps.

(** ** [normalize_url] and [is_support_url] *)

Module UrlMore.
Import PyStr UrlParse Crawler CrawlSpec MoreSpec PyStrProps.

#[local] Arguments String.append !_ _ : simpl nomatch.

Section Url.

Variable chk : string -> bool.

Local Abbreviation normalize := (normalize_url chk).

Lemma rebuilt_safe r :
  urlparse chk r.1 = Ret r.2 ->
  existsb_chars is_unsafe_url_byte (rebuilt r.2) = false.
Proof.
  intros (Hs & _ & Hn & _ & Hp & _)%UrlProps.urlparse_inv.
  unfold rebuilt. rewrite !existsb_chars_app, Hn, Hp.
  rewrite (UrlProps.wf_scheme_clean is_unsafe_url_byte _
             (fun c H => proj1 (proj2 (proj2 (UrlProps.scheme_char_plain c H))))
             Hs).
  done.
Qed.

(** X13.  [normalize_url] returns [None] only for [None] and for the empty
    string; any other result is a non-empty string in which there is no
    question mark, no hash, and no tab, carriage return or line feed. *)
Theorem normalize_url_result u n :
  normalize_url chk u = Ret n ->
  match n with
  | None => u = None \/ u = Some ""
  | Some s =>
      s <> "" /\ contains "?" s = false /\ contains "#" s = false /\
      existsb_chars is_unsafe_url_byte s = false
  end.
Proof.
  destruct u as [[|c t]|].
  - intros [= <-]. by right.
  - destruct n as [s|].
    + intros Hn. split; [by eapply UrlProps.normalize_url_nonempty|].
      destruct (UrlProps.normalize_url_clean chk _ _ Hn) as [Hq Hh].
      split; [done|]. split; [done|].
      apply UrlProps.normalize_url_some in Hn as (_ & r & Hr & ->).
      apply UrlProps.existsb_strip_slash.
      by apply (rebuilt_safe (String c t, r)).
    + unfold normalize_url. by destruct (urlparse chk (String c t)).
  - intros [= <-]. by left.
Qed.

(** X12.  For a URL with a scheme and a network location, normalising its
    normal form once more strips one more trailing slash, if there is one,
    and changes nothing else (given that no semicolon follows the last slash
    of the normal form).  This is what the driver loop does to a queue entry
    when it pops it. *)
Theorem second_normalisation_strips_a_slash u r n :
  urlparse chk u = Ret r ->
  scheme r <> "" -> netloc r <> "" ->
  normalize_url chk (Some u) = Ret (Some n) ->
  contains ";" (last_segment n) = false ->
  normalize_url chk (Some n) =
    Ret (Some (if ends_with "/" n then drop_last n else n)).
Proof. apply UrlProps.normalize_url_again. Qed.

(** *** The scope test on a plain URL *)

Lemma prefix_split a : forall p,
  starts_with a p = true -> exists q, p = a +:+ q.
Proof.
  unfold starts_with. induction a as [|c a IH]; intros [|d p]; simpl;
    try done; try by eexists.
  destruct (ascii_dec c d) as [->|]; [|done].
  intros (q & ->)%IH. by exists q.
Qed.

Lemma prefix_append a q : starts_with a (a +:+ q) = true.
Proof.
  unfold starts_with. induction a as [|c a IH]; simpl; [by destruct q|].
  by destruct (ascii_dec c c).
Qed.

Lemma existsb_rbreak q c s h seg :
  rbreak c s = Some (h, seg) ->
  existsb_chars q s = false -> existsb_chars q seg = false.
Proof.
  intros ->%UrlProps.rbreak_app. rewrite existsb_chars_app.
  by intros [_ ?]%orb_false_iff.
Qed.

Lemma existsb_last_segment q s :
  existsb_chars q s = false -> existsb_chars q (last_segment s) = false.
Proof.
  unfold last_segment. destruct (rbreak "/" s) as [[h seg]|] eqn:Hr; [|done].
  intros H. by eapply existsb_tail, existsb_rbreak.
Qed.

Lemma support_prefix_kept p :
  starts_with "/support" p = true ->
  starts_with "/support" (strip_slash p) = true /\ rooted (strip_slash p) = true.
Proof.
  intros Hp. unfold strip_slash.
  destruct (ends_with "/" p) eqn:He.
  - apply prefix_split in Hp as (q & ->).
    destruct q as [|a t]; [done|].
    rewrite drop_last_app. split; [apply prefix_append | done].
  - split; [done|]. apply prefix_split in Hp as (q & ->). done.
Qed.

Lemma strip_slash_path x p :
  p <> "" -> strip_slash (x +:+ p) = x +:+ strip_slash p.
Proof.
  intros Hp. destruct p as [|a t]; [done|]. unfold strip_slash.
  rewrite ends_with_app. destruct (ends_with "/" (String a t)); [|done].
  by rewrite drop_last_app.
Qed.

(** X14.  The scope test accepts every plain support URL it has not seen:
    for a lower-case scheme and a path that starts with [/support] and has
    no query, fragment, parameter or tab and line-break characters, the URL
    [scheme://www.angelone.in/path] normalises to itself less a trailing
    slash, and [is_support_url] returns [True] for it as long as that normal
    form is neither visited nor failed. *)
Theorem plain_support_url_accepted st s p :
  wf_scheme s = true ->
  starts_with "/support" p = true ->
  existsb_chars is_unsafe_url_byte p = false ->
  contains "?" p = false -> contains "#" p = false ->
  contains ";" p = false ->
  let u := (s +:+ "://" +:+ "www.angelone.in") +:+ p in
  let n := (s +:+ "://" +:+ "www.angelone.in") +:+ strip_slash p in
  Some n ∉ visited_urls st -> Some n ∉ failed_urls st ->
  normalize_url chk (Some u) = Ret (Some n) /\
  is_support_url chk st (Some u) = Ret true.
Proof.
  intros Hwf Hpre Hsafe Hq Hh Hsemi u n Hv Hf.
  destruct (support_prefix_kept p Hpre) as [Hpre' Hroot'].
  assert (p <> "") as Hne by (intros ->; done).
  assert (rooted p = true) as Hroot
    by (apply prefix_split in Hpre as (q & ->); done).
  assert (forall q, existsb_chars q p = false ->
            existsb_chars q (strip_slash p) = false) as Hsub
    by (intros q; apply UrlProps.existsb_strip_slash).
  assert (normalize (Some u) = Ret (Some n)) as Hn.
  { unfold u, n. rewrite <- strip_slash_path by done.
    apply UrlProps.normalize_rebuilt; try done.
    rewrite UrlProps.last_segment_app.
    - by apply existsb_last_segment.
    - destruct p as [|a t]; [done|]. by apply UrlProps.rooted_contains_slash. }
  split; [done|].
  assert (urlparse chk n
          = Ret (mkParseResult s "www.angelone.in" (strip_slash p) "" "" ""))
    as Hparse.
  { unfold n. rewrite append_assoc.
    apply UrlProps.urlparse_rebuild; try done; try (by apply Hsub).
    by apply existsb_last_segment, Hsub. }
  unfold is_support_url.
  assert (is_truthy (Some u) = true) as ->.
  { destruct (UrlProps.wf_scheme_facts s Hwf) as (_ & _ & c0 & t & -> & _).
    done. }
  cbn [negb]. rewrite Hn. cbn [mbind exc_bind].
  pose proof (UrlProps.normalize_url_nonempty chk _ _ Hn) as Hnn.
  destruct n as [|c0 n'] eqn:En; [done|]. rewrite <- En in *.
  rewrite (bool_decide_eq_false_2 _ Hv), Hparse. cbn [mbind exc_bind].
  simpl netloc. simpl path.
  by rewrite (bool_decide_eq_false_2 _ Hf), Hpre'.
Qed.

(** *** Blanks, line breaks and the case of the scheme *)

Lemma alpha_not_control c :
  is_ascii_alpha c = true -> is_c0_control_or_space c = false.
Proof. UrlProps.each_char c. Qed.

Lemma unsafe_is_control c :
  is_unsafe_url_byte c = true -> is_c0_control_or_space c = true.
Proof. UrlProps.each_char c. Qed.

Lemma drop_while_app_all p ws u :
  forallb_chars p ws = true -> drop_while p (ws +:+ u) = drop_while p u.
Proof.
  induction ws as [|a ws IH]; simpl; [done|].
  intros [-> Hws]%andb_true_iff. by apply IH.
Qed.

Lemma remove_chars_twice p s :
  remove_chars p (remove_chars p s) = remove_chars p s.
Proof. apply remove_chars_none, existsb_remove_chars_self. Qed.

Lemma remove_after_lstrip s :
  remove_chars is_unsafe_url_byte
    (drop_while is_c0_control_or_space (remove_chars is_unsafe_url_byte s))
  = remove_chars is_unsafe_url_byte (drop_while is_c0_control_or_space s).
Proof.
  induction s as [|a s IH]; [done|].
  cbn [remove_chars drop_while].
  destruct (is_unsafe_url_byte a) eqn:Hu.
  - by rewrite (unsafe_is_control a Hu).
  - cbn [drop_while]. destruct (is_c0_control_or_space a); [done|].
    cbn [remove_chars]. by rewrite Hu, remove_chars_twice.
Qed.

Lemma urlsplit_ignores_blanks ws u :
  forallb_chars is_c0_control_or_space ws = true ->
  urlsplit chk (ws +:+ u) = urlsplit chk u.
Proof. intros Hws. unfold urlsplit. by rewrite drop_while_app_all. Qed.

Lemma urlsplit_ignores_breaks u :
  urlsplit chk (remove_chars is_unsafe_url_byte u) = urlsplit chk u.
Proof. unfold urlsplit. by rewrite remove_after_lstrip. Qed.

Lemma normalize_of_urlparse u v :
  u <> "" -> v <> "" -> urlparse chk u = urlparse chk v ->
  normalize (Some u) = normalize (Some v).
Proof.
  intros Hu Hv Heq. destruct (urlparse chk v) as [r|] eqn:Hr.
  - by rewrite (UrlProps.normalize_url_eq chk u r),
      (UrlProps.normalize_url_eq chk v r).
  - by rewrite !UrlProps.normalize_url_raise.
Qed.

(** X20.  Blanks and control characters in front of a URL, and tabs,
    carriage returns and line feeds anywhere in it, do not change what
    [normalize_url] returns, as long as something is left of the URL. *)
Theorem normalize_url_ignores_blanks_and_breaks ws u :
  forallb_chars is_c0_control_or_space ws = true ->
  remove_chars is_unsafe_url_byte u <> "" ->
  normalize_url chk (Some (ws +:+ u)) = normalize_url chk (Some u) /\
  normalize_url chk (Some (remove_chars is_unsafe_url_byte u)) =
    normalize_url chk (Some u).
Proof.
  intros Hws Hne.
  assert (u <> "") as Hu by (intros ->; done).
  split; apply normalize_of_urlparse; try done.
  - destruct ws; [done|by destruct u].
  - unfold urlparse. by rewrite urlsplit_ignores_blanks.
  - unfold urlparse. by rewrite urlsplit_ignores_breaks.
Qed.

Lemma split_scheme_found s x :
  valid_scheme s = true -> split_scheme (s +:+ String ":" x) = (lower s, x).
Proof.
  unfold valid_scheme. destruct s as [|c0 t]; [done|].
  intros [Ha Hf]%andb_true_iff. unfold split_scheme.
  rewrite break_hit; [|by eapply forallb_existsb_chars;
    [|exact Hf]; intros c Hc;
    destruct (UrlProps.scheme_char_plain c Hc) as (_&?&_)|done].
  by rewrite Ha, Hf.
Qed.

Lemma valid_scheme_lower s :
  valid_scheme s = true ->
  valid_scheme (lower s) = true /\ lower (lower s) = lower s.
Proof.
  unfold valid_scheme. destruct s as [|c0 t]; [done|].
  intros [Ha Hf]%andb_true_iff.
  pose proof (UrlProps.forallb_lower _ Hf) as Hl.
  split; [|by apply UrlProps.lower_fixed].
  change (lower (String c0 t)) with (String (lower_char c0) (lower t)) in *.
  apply andb_true_iff. split.
  - apply UrlProps.lower_alpha in Ha.
    by destruct (UrlProps.lower_is_alpha _ Ha).
  - eapply UrlProps.forallb_chars_impl; [|exact Hl].
    intros c Hc. by destruct (UrlProps.lower_scheme_char_is c Hc).
Qed.

Lemma urlsplit_scheme_case s x :
  valid_scheme s = true ->
  urlsplit chk (s +:+ String ":" x) = urlsplit chk (lower s +:+ String ":" x).
Proof.
  intros Hs. destruct (valid_scheme_lower s Hs) as [Hl Hll].
  assert (forall s0, valid_scheme s0 = true ->
            remove_chars is_unsafe_url_byte
              (drop_while is_c0_control_or_space (s0 +:+ String ":" x))
            = s0 +:+ String ":" (remove_chars is_unsafe_url_byte x)) as Hpre.
  { intros s0 Hs0. unfold valid_scheme in Hs0.
    destruct s0 as [|c0 t]; [done|].
    apply andb_true_iff in Hs0 as [Ha Hf].
    cbn [String.append drop_while]. rewrite (alpha_not_control c0 Ha).
    change (String c0 (t +:+ String ":" x))
      with (String c0 t +:+ String ":" x).
    rewrite remove_chars_app.
    rewrite (remove_chars_cons_keep is_unsafe_url_byte ":" x) by done.
    rewrite remove_chars_none; [done|].
    eapply forallb_existsb_chars; [|exact Hf]. intros c Hc.
    by destruct (UrlProps.scheme_char_plain c Hc) as (_&_&?&_). }
  unfold urlsplit. rewrite (Hpre s Hs), (Hpre (lower s) Hl).
  by rewrite !split_scheme_found, Hll.
Qed.

(** X19.  The case of the scheme does not matter: a URL and the same URL
    with its scheme in lower case have the same normal form. *)
Theorem normalize_url_ignores_scheme_case s x :
  valid_scheme s = true ->
  normalize_url chk (Some (s +:+ ":" +:+ x)) =
    normalize_url chk (Some (lower s +:+ ":" +:+ x)).
Proof.
  intros Hs. apply normalize_of_urlparse.
  - by destruct s.
  - by destruct s.
  - unfold urlparse. change (":" +:+ x) with (String ":" x).
    by rewrite urlsplit_scheme_case.
Qed.

End Url.

End UrlMore.

(** ** The queue, the discovery and the records *)

Module CrawlMore.
Import PyStr UrlParse Crawler CrawlSpec MoreSpec.

Section Run.

Variable check_bracketed_host : string -> bool.
Variable web : Web.

Local Abbreviation normalize := (normalize_url check_bracketed_host).
Local Abbreviation supported := (is_support_url check_bracketed_host).
Local Abbreviation collect := (collect_links check_bracketed_host).
Local Abbreviation scrape := (scrape_page_content check_bracketed_host web).
Local Abbreviation body := (loop_body check_bracketed_host web).
Local Abbreviation loop := (crawl_loop check_bracketed_host web).
Local Abbreviation crawl := (crawl_all_support_pages check_bracketed_host web).
Local Abbreviation discover :=
  (discover_all_support_links check_bracketed_host web).

(** *** "Remove duplicates from queue" *)

Lemma unique_queue_spec q : forall seen uq,
  unique_queue check_bracketed_host q seen = Ret uq ->
  NoDup uq /\
  forall x, x ∈ uq <->
    x ∉ seen /\ is_truthy x = true /\
    exists u, u ∈ q /\ normalize u = Ret x.
Proof.
  induction q as [|u more IH]; intros seen uq; simpl.
  { intros [= <-]. split; [constructor|]. intros x. split.
    - by intros ?%elem_of_nil.
    - intros (_ & _ & u & ?%elem_of_nil & _). done. }
  destruct (normalize_url _ u) as [n|] eqn:Hn; [|done]. cbn [mbind exc_bind].
  destruct (is_truthy n && negb (bool_decide (n ∈ seen))) eqn:Hc.
  - apply andb_true_iff in Hc as [Ht Hs%negb_true_iff%bool_decide_eq_false].
    destruct (unique_queue _ more _) as [uq'|] eqn:Hu; [|done].
    cbn [mbind exc_bind]. intros [= <-].
    destruct (IH _ _ Hu) as [Hnd Hmem]. split.
    + constructor; [|done]. intros Hin%Hmem. set_solver.
    + intros x. rewrite elem_of_cons, Hmem. split.
      * intros [->|(Hx & Hxt & u' & Hu' & Hnx)].
        -- split; [done|]. split; [done|]. exists u. split; [left|done].
        -- split; [set_solver|]. split; [done|].
           exists u'. split; [by right|done].
      * intros (Hx & Hxt & u' & Hu' & Hnx).
        destruct (decide (x = n)) as [->|Hne]; [by left|]. right.
        split; [set_solver|]. split; [done|].
        apply elem_of_cons in Hu' as [->|Hu']; [congruence|]. eauto.
  - intros Hu. destruct (IH _ _ Hu) as [Hnd Hmem]. split; [done|].
    intros x. rewrite Hmem. split.
    + intros (Hx & Hxt & u' & Hu' & Hnx). split; [done|]. split; [done|].
      exists u'. split; [by right|done].
    + intros (Hx & Hxt & u' & Hu' & Hnx). split; [done|]. split; [done|].
      apply elem_of_cons in Hu' as [->|Hu']; [|eauto].
      exfalso. rewrite Hn in Hnx. injection Hnx as ->.
      rewrite Hxt in Hc. cbn [andb] in Hc.
      apply negb_false_iff, bool_decide_eq_true in Hc. done.
Qed.

(** X4.  When the pass that removes duplicates from the queue returns, the
    new queue has no duplicates, and it holds exactly the non-empty normal
    forms of the entries of the old one. *)
Theorem unique_queue_dedups q uq :
  unique_queue check_bracketed_host q ∅ = Ret uq ->
  NoDup uq /\
  forall x, x ∈ uq <->
    is_truthy x = true /\
    exists u, u ∈ q /\ normalize_url check_bracketed_host u = Ret x.
Proof.
  intros [Hnd Hmem]%unique_queue_spec. split; [done|].
  intros x. rewrite Hmem. set_solver.
Qed.

(** *** The link harvest *)

Lemma collect_sound st anchors : forall acc x,
  x ∈ (collect st anchors acc).1 ->
  x ∈ acc \/
  exists a, a ∈ anchors /\ normalize a = Ret x /\ supported st x = Ret true.
Proof.
  induction anchors as [|a more IH]; intros acc x; simpl; [by left|].
  destruct (normalize_url _ a) as [n|] eqn:Hn; simpl; [|by left].
  destruct (is_support_url _ _ n) as [[]|] eqn:Hs; simpl; [| |by left].
  - intros [Hx|(a' & ? & ?)]%IH.
    + apply elem_of_union in Hx as [->%elem_of_singleton|]; [|by left].
      right. exists a. split; [left | done].
    + right. exists a'. split; [by right | done].
  - intros [Hx|(a' & ? & ?)]%IH; [by left|].
    right. exists a'. split; [by right | done].
Qed.

Lemma collect_keeps st anchors : forall acc, acc ⊆ (collect st anchors acc).1.
Proof.
  induction anchors as [|a more IH]; intros acc; simpl; [done|].
  destruct (normalize_url _ a) as [n|]; simpl; [|done].
  destruct (is_support_url _ _ n) as [[]|]; simpl; [| |done].
  - etrans; [|apply IH]. set_solver.
  - apply IH.
Qed.

Lemma collect_complete st anchors : forall acc,
  (forall a, a ∈ anchors ->
     exists l b, normalize a = Ret l /\ supported st l = Ret b) ->
  (collect st anchors acc).2 = Ret tt /\
  forall a l, a ∈ anchors -> normalize a = Ret l ->
    supported st l = Ret true -> l ∈ (collect st anchors acc).1.
Proof.
  induction anchors as [|a more IH]; intros acc Hall; simpl.
  { split; [done|]. by intros a l ?%elem_of_nil. }
  destruct (Hall a ltac:(left)) as (n & b & Hn & Hb). rewrite Hn, Hb.
  assert (forall a0, a0 ∈ more ->
            exists l b0, normalize a0 = Ret l /\ supported st l = Ret b0)
    as Hmore by (intros a0 Ha0; apply Hall; by right).
  destruct b.
  - destruct (IH ({[n]} ∪ acc) Hmore) as [Hret Hin]. split; [done|].
    intros a0 l [->|Ha0]%elem_of_cons Hl Hs; [|by eapply Hin].
    rewrite Hn in Hl. injection Hl as <-.
    apply collect_keeps. set_solver.
  - destruct (IH acc Hmore) as [Hret Hin]. split; [done|].
    intros a0 l [->|Ha0]%elem_of_cons Hl Hs; [|by eapply Hin].
    rewrite Hn in Hl. injection Hl as <-. congruence.
Qed.

Lemma collect_raises st anchors : forall acc a,
  a ∈ anchors -> normalize a = Raise -> (collect st anchors acc).2 = Raise.
Proof.
  induction anchors as [|a0 more IH]; intros acc a; simpl.
  { by intros ?%elem_of_nil. }
  intros [->|Ha]%elem_of_cons Hr.
  - by rewrite Hr.
  - destruct (normalize_url _ a0) as [n|]; [|done].
    destruct (is_support_url _ _ n) as [[]|]; [| |done]; by eapply IH.
Qed.

(** X5.  What the discovery returns has no duplicates, and each of its
    links is the normal form of an anchor of the seed page (of the rendered
    one only with a driver) and passes [is_support_url]; and when no anchor
    of the static pass raises, every normal form of a static anchor that
    passes [is_support_url] is returned, whatever the rendered pass does. *)
Theorem discovery_returns_support_links st :
  NoDup (discover_all_support_links check_bracketed_host web st) /\
  (forall l, l ∈ discover_all_support_links check_bracketed_host web st ->
     is_support_url check_bracketed_host st l = Ret true /\
     exists a, normalize_url check_bracketed_host a = Ret l /\
       ((exists s, seed_static web = Some s /\ a ∈ s) \/
        (driver st = true /\ exists s, seed_rendered web = Some s /\ a ∈ s))) /\
  (forall s a l,
     seed_static web = Some s ->
     (forall a0, a0 ∈ s ->
        exists l0 b, normalize_url check_bracketed_host a0 = Ret l0 /\
          is_support_url check_bracketed_host st l0 = Ret b) ->
     a ∈ s ->
     normalize_url check_bracketed_host a = Ret l ->
     is_support_url check_bracketed_host st l = Ret true ->
     l ∈ discover_all_support_links check_bracketed_host web st).
Proof.
  unfold discover_all_support_links. split; [apply NoDup_elements|]. split.
  - intros l Hl%elem_of_elements.
    assert (forall x : pyurl, x ∈ (match seed_static web with
                         | Some anchors => (collect st anchors ∅).1
                         | None => ∅
                         end) ->
            supported st x = Ret true /\
            exists a, normalize a = Ret x /\
              exists s, seed_static web = Some s /\ a ∈ s) as Hstatic.
    { intros x. destruct (seed_static web) as [s|]; [|set_solver].
      intros [?|(a & ? & ? & ?)]%collect_sound; [set_solver|]. eauto 7. }
    destruct (driver st); [|apply Hstatic in Hl as (? & a & ? & ?); eauto 7].
    destruct (seed_rendered web) as [s|] eqn:Hr;
      [|apply Hstatic in Hl as (? & a & ? & ?); eauto 7].
    apply collect_sound in Hl as [Hl|(a & ? & ? & ?)].
    + apply Hstatic in Hl as (? & a & ? & ?). eauto 7.
    + split; [done|]. exists a. split; [done|]. right. eauto.
  - intros s a l Hs Hall Ha Hl Hsup. apply elem_of_elements. rewrite Hs.
    destruct (collect_complete st s ∅ Hall) as [_ Hin].
    specialize (Hin a l Ha Hl Hsup).
    destruct (driver st); [|done].
    destruct (seed_rendered web); [|done]. by apply collect_keeps.
Qed.

(** X6.  One anchor whose URL [urlparse] rejects fails the whole page:
    although the page was fetched, [scrape_page_content] returns [None], adds
    the page's URL to the failed set and adds nothing to the queue. *)
Theorem unparsable_anchor_fails_page st u anchors doc a :
  http_get web u = Fetched anchors doc ->
  a ∈ anchors -> normalize_url check_bracketed_host a = Raise ->
  scrape_page_content check_bracketed_host web st u = (add_failed u st, None).
Proof.
  intros Hget Ha Hr. unfold scrape_page_content, extract_support_links_from_page.
  rewrite Hget. pose proof (collect_raises st anchors ∅ a Ha Hr) as Hc.
  destruct (collect_links _ _ _ _) as [links r]. simpl in Hc. by subst.
Qed.

(** *** What a page adds to the queue *)

Lemma enqueue_links_added links : forall st,
  exists added,
    url_queue (enqueue_links check_bracketed_host st links).1
      = url_queue st ++ added /\
    added `sublist_of` links /\
    forall l, l ∈ added -> l ∉ visited_urls st.
Proof.
  induction links as [|link more IH]; intros st; simpl.
  { exists []. rewrite app_nil_r. split; [done|].
    split; [constructor|]. by intros l ?%elem_of_nil. }
  case_bool_decide as Hv.
  { destruct (IH st) as (added & Hq & Hsub & Hnv).
    exists added. split; [done|]. split; [by apply sublist_cons|done]. }
  destruct (normalized_queue _ _) as [queued|]; simpl.
  2:{ exists []. rewrite app_nil_r. split; [done|].
      split; [apply sublist_nil_l|]. by intros l ?%elem_of_nil. }
  case_bool_decide.
  { destruct (IH st) as (added & Hq & Hsub & Hnv).
    exists added. split; [done|]. split; [by apply sublist_cons|done]. }
  destruct (IH (set_queue (url_queue st ++ [link]) st))
    as (added & Hq & Hsub & Hnv).
  exists (link :: added). split; [|split].
  - rewrite Hq. simpl. by rewrite <- app_assoc.
  - by apply sublist_skip.
  - intros l [->|Hl]%elem_of_cons; [done|]. by apply Hnv.
Qed.

(** X7.  [scrape_page_content] only appends to the queue: the entries
    waiting keep their places, and what is appended is a duplicate-free list
    of links of the page, each the normal form of one of its anchors, none of
    them visited, all of them passing [is_support_url]. *)
Theorem scrape_appends_new_links st u :
  exists added,
    url_queue (scrape_page_content check_bracketed_host web st u).1 =
      url_queue st ++ added /\
    NoDup added /\
    forall l, l ∈ added ->
      l ∉ visited_urls st /\
      is_support_url check_bracketed_host st l = Ret true /\
      exists anchors doc a,
        http_get web u = Fetched anchors doc /\ a ∈ anchors /\
        normalize_url check_bracketed_host a = Ret l.
Proof.
  assert (exists added : list pyurl,
            url_queue st = url_queue st ++ added /\ NoDup added /\
            forall l, l ∈ added ->
              l ∉ visited_urls st /\ supported st l = Ret true /\
              exists anchors doc a,
                http_get web u = Fetched anchors doc /\ a ∈ anchors /\
                normalize a = Ret l) as Hnone.
  { exists []. rewrite app_nil_r. split; [done|]. split; [constructor|].
    by intros l ?%elem_of_nil. }
  unfold scrape_page_content, extract_support_links_from_page.
  destruct (http_get web u) as [|anchors doc] eqn:Hget; [done|].
  pose proof (collect_sound st anchors ∅) as Hsound.
  destruct (collect_links _ _ _ _) as [links [[]|]]; [|done]. simpl in Hsound.
  destruct (enqueue_links_added (elements links) st)
    as (added & Hq & Hsub & Hnv).
  assert (exists added0 : list pyurl,
            url_queue (enqueue_links check_bracketed_host st
                         (elements links)).1 = url_queue st ++ added0 /\
            NoDup added0 /\
            forall l, l ∈ added0 ->
              l ∉ visited_urls st /\ supported st l = Ret true /\
              exists anchors0 doc0 a,
                Fetched anchors doc = Fetched anchors0 doc0 /\ a ∈ anchors0 /\
                normalize a = Ret l) as Hsome.
  { exists added. split; [done|]. split.
    - exact (sublist_NoDup _ _ (NoDup_elements links) Hsub).
    - intros l Hl. split; [by apply Hnv|].
      assert (l ∈ links) as Hin.
      { apply elem_of_elements. by eapply elem_of_sublist. }
      apply Hsound in Hin as [?|(a & ? & ? & ?)]; [set_solver|].
      split; [done|]. by exists anchors, doc, a. }
  destruct (enqueue_links _ _ _) as [st1 [[]|]]; simpl in *; [|done].
  destruct doc as [d|]; [|done]. by destruct (_ && _).
Qed.

(** *** The records *)

Lemma scrape_result st u :
  exists st1, same_but_queue st st1 /\
    (scrape st u = (add_failed u st1, None) \/
     scrape st u = (st1, None) \/
     exists rec, scrape st u = (st1, Some rec) /\ url rec = u /\ record_ok rec).
Proof.
  destruct (try_raises check_bracketed_host web st u) eqn:Hr.
  - apply CrawlProps.scrape_raises in Hr as (st1 & Hfr & Hs).
    exists st1. split; [done|]. by left.
  - apply CrawlProps.scrape_returns in Hr as (st1 & anchors & doc & Hfr & _ & Hs).
    exists st1. split; [done|]. rewrite Hs.
    destruct (50 <? len _) eqn:Hlen; [|right; by left].
    right. right. eexists. split; [done|]. split; [done|].
    unfold record_ok. simpl. apply Z.ltb_lt in Hlen.
    repeat split; [done|]. apply CrawlProps.strip_page_text.
Qed.

(** One iteration, with what it does to the failed set and to the records
    told together. *)
Lemma body_outcomes st c st' r :
  body st c = (st', r) ->
  same_but_queue st st' \/
  exists n,
    n ∉ visited_urls st /\ visited_urls st' = {[n]} ∪ visited_urls st /\
    ((failed_urls st' = {[n]} ∪ failed_urls st /\
      scraped_data st' = scraped_data st) \/
     (failed_urls st' = failed_urls st /\
      scraped_data st' = scraped_data st) \/
     (failed_urls st' = failed_urls st /\
      exists rec, url rec = n /\ record_ok rec /\
        scraped_data st' = scraped_data st ++ [rec])).
Proof.
  unfold loop_body. destruct (url_queue st) as [|u rest] eqn:Hq.
  { intros [= <- <-]. left. apply CrawlProps.same_but_queue_refl. }
  destruct (normalize_url _ u) as [n|] eqn:Hn.
  2:{ intros [= <- <-]. left. apply CrawlProps.same_but_queue_set. }
  case_bool_decide as Hin.
  { intros [= <- <-]. left. apply CrawlProps.same_but_queue_set. }
  simpl in Hin.
  destruct (scrape_result (set_queue rest st) n)
    as (st1 & (_&_&Hv&Hd&Hf&_) & [Hs|[Hs|(rec & Hs & Hu & Hok)]]);
    rewrite Hs; simpl in *; intros [= <- <-]; right; exists n; simpl;
    rewrite ?Hv, ?Hd, ?Hf; (split; [done|]); (split; [done|]).
  - by left.
  - right. by left.
  - right. right. split; [done|]. by exists rec.
Qed.

Lemma sound_frame st st' : same_but_queue st st' -> sound st -> sound st'.
Proof.
  intros Hfr [Hc Hr Ha]. pose proof Hfr as (_&_&_&Hd&Hf&_).
  split; [by eapply CrawlProps.consistent_frame| |];
    unfold scraped_urls in *; by rewrite ?Hd, ?Hf.
Qed.

Lemma init_sound base maxp drv : sound (init base maxp drv).
Proof.
  split; [apply CrawlProps.init_consistent | constructor |].
  by intros u ?%elem_of_nil.
Qed.

Lemma body_sound st c st' r : sound st -> body st c = (st', r) -> sound st'.
Proof.
  intros Hs Hb. destruct (body_outcomes _ _ _ _ Hb) as [Hfr|Hn].
  { by eapply sound_frame. }
  destruct Hs as [Hc Hr Ha].
  pose proof (CrawlProps.body_consistent _ _ _ _ _ _ Hc Hb) as Hc'.
  destruct Hc as [Hfv Hsv _].
  destruct Hn as (n & Hnew & Hv & [[Hf Hd]|[[Hf Hd]|(Hf & rec & Hu & Hok & Hd)]]);
    (split; [done| |]); unfold scraped_urls in *; rewrite ?Hd, ?Hf; try done.
  - intros u Hu. specialize (Ha u Hu). specialize (Hsv u Hu). set_solver.
  - apply Forall_app. split; [done|]. by constructor.
  - intros u. rewrite map_app, elem_of_app. simpl.
    intros [Hin| ->%list_elem_of_singleton]; [by apply Ha|].
    rewrite Hu. intros Hin. by apply Hnew, Hfv.
Qed.

Lemma loop_sound patience : forall st c,
  sound st -> sound (state_of (loop patience st c)).
Proof.
  induction patience as [|p IH]; intros st c Hs; simpl.
  - by destruct (loop_test st c).
  - destruct (loop_test st c); [|done].
    destruct (body st c) as [st' [c'|]] eqn:Hb.
    + apply IH. by eapply body_sound.
    + simpl. by eapply body_sound.
Qed.

Lemma crawl_sound patience st : sound st -> sound (state_of (crawl patience st)).
Proof.
  intros Hs. unfold crawl_all_support_pages.
  pose proof (CrawlProps.add_discovered_frame check_bracketed_host
                (discover st) st) as Hfr.
  destruct (add_discovered _ _ _) as [st1 [[]|]]; simpl in Hfr.
  - destruct (unique_queue _ _ _) as [uq|]; simpl.
    + apply loop_sound. eapply sound_frame; [|eassumption].
      eapply CrawlProps.same_but_queue_trans;
        [eassumption | apply CrawlProps.same_but_queue_set].
    + by eapply sound_frame.
  - simpl. by eapply sound_frame.
Qed.

(** X8.  Wherever a crawl started on a fresh crawler stops, every page
    record it has collected is well formed: [content_length] is the length
    of [content], the content has more than 50 characters and neither leading
    nor trailing white space, and [source_type] is ["support_page"]. *)
Theorem crawl_records_well_formed patience base maxp drv rec :
  rec ∈ scraped_data
          (state_of (crawl_all_support_pages check_bracketed_host web patience
                       (init base maxp drv))) ->
  content_length rec = len (content rec) /\
  50 < len (content rec) /\
  strip (content rec) = content rec /\
  source_type rec = "support_page".
Proof.
  intros Hin.
  destruct (crawl_sound patience _ (init_sound base maxp drv)) as [_ Hr _].
  rewrite Forall_forall in Hr. by apply Hr.
Qed.

(** X9.  Successes and failures are kept apart: wherever a crawl started on
    a fresh crawler stops, no URL of a page record is in the failed set, and
    the records and the failed URLs together are no more than the visited
    URLs. *)
Theorem scraped_and_failed_are_apart patience base maxp drv :
  let st := state_of (crawl_all_support_pages check_bracketed_host web
                        patience (init base maxp drv)) in
  (forall rec, rec ∈ scraped_data st -> url rec ∉ failed_urls st) /\
  (length (scraped_data st) + size (failed_urls st)
   <= size (visited_urls st))%nat.
Proof.
  intros st.
  destruct (crawl_sound patience _ (init_sound base maxp drv))
    as [[Hfv Hsv Hnd] _ Ha]. fold st in Hfv, Hsv, Hnd, Ha.
  split.
  - intros rec Hrec. apply Ha. unfold scraped_urls.
    apply list_elem_of_fmap. by exists rec.
  - set (S := list_to_set (scraped_urls st) : gset pyurl).
    assert (size S = length (scraped_data st)) as <-.
    { unfold S. rewrite size_list_to_set by done.
      unfold scraped_urls. by rewrite length_map. }
    rewrite <- size_union by (unfold S; set_solver).
    apply subseteq_size. unfold S. set_solver.
Qed.

(** X11.  In the summary [save_data] builds after such a crawl, the total
    content size is the sum of the [content_length] entries of the pages
    listed, it is at least 51 characters per page, and the count of failed
    URLs is the length of the list of failed URLs. *)
Theorem summary_totals_agree patience base maxp drv :
  let s := save_data
             (state_of (crawl_all_support_pages check_bracketed_host web
                          patience (init base maxp drv))) in
  total_content_size (crawl_info s) = sum_content_length (support_pages s) /\
  51 * total_pages_scraped (crawl_info s) <= total_content_size (crawl_info s) /\
  total_pages_scraped (crawl_info s) = Z.of_nat (length (support_pages s)) /\
  failed_urls_count (crawl_info s)
  = Z.of_nat (length (summary_failed_urls s)).
Proof.
  intros s.
  destruct (crawl_sound patience _ (init_sound base maxp drv)) as [_ Hr _].
  subst s. simpl.
  induction Hr as [|rec data (Hl & Hlen & _) Hr IH]; [done|].
  destruct IH as (IH1 & IH2 & _). simpl.
  split; [|split]; [rewrite Hl; lia | lia | done].
Qed.

(** *** The scope test along a run *)

Lemma supported_antitone st st' u :
  visited_urls st ⊆ visited_urls st' ->
  failed_urls st ⊆ failed_urls st' ->
  supported st' u = Ret true -> supported st u = Ret true.
Proof.
  intros Hv Hf. unfold is_support_url.
  destruct (negb (is_truthy u)); [done|].
  destruct (normalize_url _ u) as [[[|c n]|]|]; try done.
  cbn [mbind exc_bind].
  destruct (bool_decide (Some (String c n) ∈ visited_urls st')) eqn:Hv';
    [done|].
  apply bool_decide_eq_false in Hv'.
  assert (Some (String c n) ∉ visited_urls st) as Hnv by set_solver.
  rewrite (bool_decide_eq_false_2 _ Hnv).
  destruct (urlparse _ _) as [r|]; [|done]. cbn [mbind exc_bind].
  intros [= H]. f_equal.
  apply andb_true_iff in H as [-> Hfail]. cbn [andb].
  apply negb_true_iff, bool_decide_eq_false in Hfail.
  assert (Some (String c n) ∉ failed_urls st) as Hnf by set_solver.
  by rewrite (bool_decide_eq_false_2 _ Hnf).
Qed.

(** X17.  A URL that [is_support_url] accepts at some point of a run of the
    driver loop was acceptable from the start of the run: the visited and
    the failed set only grow, and a URL once turned down for being in one of
    them is never accepted again. *)
Theorem support_url_never_regained patience st c u :
  is_support_url check_bracketed_host
    (state_of (crawl_loop check_bracketed_host web patience st c)) u
  = Ret true ->
  is_support_url check_bracketed_host st u = Ret true.
Proof.
  apply supported_antitone.
  - apply CrawlProps.loop_failed_visited.
  - apply CrawlProps.loop_extends.
Qed.

(** *** The driver *)

Lemma collect_with_driver drv st anchors : forall acc,
  collect (with_driver drv st) anchors acc = collect st anchors acc.
Proof.
  induction anchors as [|a more IH]; intros acc; simpl; [done|].
  destruct (normalize_url _ a) as [n|]; [|done].
  change (is_support_url check_bracketed_host (with_driver drv st) n)
    with (is_support_url check_bracketed_host st n).
  destruct (is_support_url _ _ n) as [[]|]; by rewrite ?IH.
Qed.

Lemma enqueue_links_with_driver drv links : forall st,
  enqueue_links check_bracketed_host (with_driver drv st) links
  = (with_driver drv (enqueue_links check_bracketed_host st links).1,
     (enqueue_links check_bracketed_host st links).2).
Proof.
  induction links as [|link more IH]; intros st; simpl; [done|].
  case_bool_decide; [apply IH|].
  destruct (normalized_queue _ _) as [queued|]; [|done].
  case_bool_decide; [apply IH|].
  change (set_queue (url_queue st ++ [link]) (with_driver drv st))
    with (with_driver drv (set_queue (url_queue st ++ [link]) st)).
  apply IH.
Qed.

Lemma try_raises_with_driver drv st u :
  try_raises check_bracketed_host web (with_driver drv st) u
  = try_raises check_bracketed_host web st u.
Proof.
  unfold try_raises, extract_support_links_from_page.
  destruct (http_get web u) as [|anchors doc]; [done|].
  rewrite collect_with_driver.
  destruct (collect_links _ _ _ _) as [links [[]|]]; [|done].
  rewrite enqueue_links_with_driver.
  by destruct (enqueue_links _ _ _) as [st1 [[]|]].
Qed.

Lemma page_text_at_least_static st u doc :
  len (clean_text (static_content doc)) <= len (page_text web st u doc).
Proof.
  unfold page_text, with_rendered_fallback.
  destruct (_ && driver st); [|lia].
  destruct (truthy _ && _) eqn:Hc; [|lia].
  apply andb_true_iff in Hc as [_ Hlt%Z.ltb_lt]. lia.
Qed.

Lemma page_text_without_driver st u doc :
  page_text web (with_driver false st) u doc = clean_text (static_content doc).
Proof.
  unfold page_text, with_rendered_fallback. simpl. by rewrite andb_false_r.
Qed.

(** X10.  A driver never costs a page: when [scrape_page_content] returns a
    record for a URL on a crawler without a driver, it returns one for the
    same URL, with the same title and with content at least as long, on the
    same crawler with a driver, whatever the driver renders. *)
Theorem driver_never_loses_a_page st u rec :
  (scrape_page_content check_bracketed_host web (with_driver false st) u).2 =
    Some rec ->
  exists rec',
    (scrape_page_content check_bracketed_host web (with_driver true st) u).2 =
      Some rec' /\
    url rec' = url rec /\ title rec' = title rec /\
    len (content rec) <= len (content rec').
Proof.
  intros Hrec.
  destruct (try_raises check_bracketed_host web st u) eqn:Hr.
  { rewrite <- (try_raises_with_driver false) in Hr.
    apply CrawlProps.scrape_raises in Hr as (st1 & _ & Hs).
    by rewrite Hs in Hrec. }
  pose proof Hr as Hr'.
  rewrite <- (try_raises_with_driver false) in Hr.
  rewrite <- (try_raises_with_driver true) in Hr'.
  apply CrawlProps.scrape_returns in Hr as (st1 & anchors & doc & _ & Hget & Hs).
  apply CrawlProps.scrape_returns in Hr'
    as (st2 & anchors' & doc' & _ & Hget' & Hs').
  rewrite Hget in Hget'. injection Hget' as <- <-.
  rewrite Hs in Hrec. rewrite Hs'. simpl in *.
  rewrite page_text_without_driver in Hrec.
  pose proof (page_text_at_least_static (with_driver true st) u doc) as Hle.
  destruct (50 <? len (clean_text (static_content doc))) eqn:Hlen; [|done].
  apply Z.ltb_lt in Hlen. injection Hrec as <-. simpl.
  rewrite (proj2 (Z.ltb_lt _ _)) by lia. eauto.
Qed.

(** *** What the crawl does before its loop, and what a page leaves alone *)

Lemma add_discovered_added_among (all links : list pyurl) :
  (forall l, l ∈ links -> l ∈ all) ->
  forall st, exists added,
    url_queue (add_discovered check_bracketed_host st links).1
      = url_queue st ++ added /\
    forall x, x ∈ added ->
      is_truthy x = true /\ exists l, l ∈ all /\ normalize l = Ret x.
Proof.
  assert (forall st : crawler, exists added : list pyurl,
            url_queue st = url_queue st ++ added /\
            forall x, x ∈ added ->
              is_truthy x = true /\
              exists l, l ∈ all /\ normalize l = Ret x) as Hnone.
  { intros st. exists []. rewrite app_nil_r. split; [done|].
    by intros x ?%elem_of_nil. }
  induction links as [|link more IH]; intros Hall st; simpl; [apply Hnone|].
  assert (forall l, l ∈ more -> l ∈ all) as Hmore
    by (intros l Hl; apply Hall; by right).
  specialize (IH Hmore).
  destruct (normalize_url _ link) as [n|] eqn:Hn; simpl; [|apply Hnone].
  destruct (is_truthy n) eqn:Ht; [|apply IH].
  destruct (normalized_queue _ _) as [queued|]; simpl; [|apply Hnone].
  case_bool_decide; [apply IH|].
  destruct (IH (set_queue (url_queue st ++ [n]) st)) as (added & Hq & Hin).
  exists (n :: added). split.
  - rewrite Hq. simpl. by rewrite <- app_assoc.
  - intros x [->|Hx]%elem_of_cons; [|by apply Hin].
    split; [done|]. exists link. split; [apply Hall; left|done].
Qed.

(** X16.  Adding the discovered links only appends to the queue, and only
    non-empty normal forms of discovered links; nothing but the queue
    changes, also when the step is cut short by an exception. *)
Theorem discovered_links_are_appended st links :
  same_but_queue st (add_discovered check_bracketed_host st links).1 /\
  exists added,
    url_queue (add_discovered check_bracketed_host st links).1
      = url_queue st ++ added /\
    forall x, x ∈ added ->
      is_truthy x = true /\
      exists l, l ∈ links /\ normalize_url check_bracketed_host l = Ret x.
Proof.
  split; [apply CrawlProps.add_discovered_frame|].
  by apply add_discovered_added_among.
Qed.

(** X18.  [scrape_page_content] marks nothing visited and leaves the
    records, the cap and the driver alone; to the failed set it adds its own
    URL or nothing, and nothing when it returns a record. *)
Theorem scrape_leaves_marking_to_the_loop st u :
  let st' := (scrape_page_content check_bracketed_host web st u).1 in
  visited_urls st' = visited_urls st /\
  scraped_data st' = scraped_data st /\
  max_pages st' = max_pages st /\ driver st' = driver st /\
  (failed_urls st' = failed_urls st \/
   (failed_urls st' = {[u]} ∪ failed_urls st /\
     (scrape_page_content check_bracketed_host web st u).2 = None)) /\
  (forall rec,
     (scrape_page_content check_bracketed_host web st u).2 = Some rec ->
     url rec = u /\ failed_urls st' = failed_urls st).
Proof.
  intros st'. subst st'.
  destruct (scrape_result st u)
    as (st1 & (_&Hm&Hv&Hd&Hf&Hdr) & [Hs|[Hs|(rec & Hs & Hu & _)]]);
    rewrite Hs; simpl; rewrite ?Hm, ?Hv, ?Hd, ?Hf, ?Hdr;
    (split; [done|]); (split; [done|]); (split; [done|]); (split; [done|]).
  - split; [by right | done].
  - split; [by left | done].
  - split; [by left|]. by intros rec' [= <-].
Qed.

End Run.

End CrawlMore.

(** ** The scroll loop of the discovery *)

Module ScrollProps.
Import MoreSpec.

Section Heights.

Variable height : nat -> Z.

(** A run that ends after its [k]-th scroll ended because that scroll left
    the height as it was, and no earlier scroll did. *)
Lemma scroll_result fuel : forall i k,
  scroll_to_bottom fuel height i (height i) = Some k ->
  (i < k <= i + fuel)%nat /\
  height k = height (k - 1) /\
  forall j, (i < j < k)%nat -> height j <> height (j - 1).
Proof.
  induction fuel as [|fuel IH]; intros i k; simpl; [done|].
  destruct (height (S i) =? height i) eqn:He.
  - intros [= <-]. apply Z.eqb_eq in He. split; [lia|]. split.
    + by replace (S i - 1)%nat with i by lia.
    + intros j Hj. lia.
  - intros (Hk & Hs & Hbefore)%IH. apply Z.eqb_neq in He.
    split; [lia|]. split; [done|]. intros j Hj.
    destruct (decide (j = S i)) as [->|Hne].
    + by replace (S i - 1)%nat with i by lia.
    + apply Hbefore. lia.
Qed.

Lemma scroll_more_fuel fuel : forall fuel' i last k,
  (fuel <= fuel')%nat ->
  scroll_to_bottom fuel height i last = Some k ->
  scroll_to_bottom fuel' height i last = Some k.
Proof.
  induction fuel as [|fuel IH]; intros fuel' i last k Hle; simpl; [done|].
  destruct fuel' as [|fuel']; [lia|]. simpl.
  destruct (height (S i) =? last); [done|]. apply IH. lia.
Qed.

Hypothesis grows : forall k, height k <= height (S k).

Lemma scroll_bounded B m : forall i,
  (forall k, height k <= B) ->
  (Z.to_nat (B - height i) <= m)%nat ->
  exists k, scroll_to_bottom (S m) height i (height i) = Some k.
Proof.
  induction m as [|m IH]; intros i Hb Hm.
  - exists (S i). simpl.
    pose proof (Hb i). pose proof (Hb (S i)). pose proof (grows i).
    rewrite (proj2 (Z.eqb_eq _ _)); [done|lia].
  - change (scroll_to_bottom (S (S m)) height i (height i))
      with (if height (S i) =? height i then Some (S i)
            else scroll_to_bottom (S m) height (S i) (height (S i))).
    destruct (height (S i) =? height i) eqn:He; [by eexists|].
    apply Z.eqb_neq in He. apply IH; [done|].
    pose proof (Hb i). pose proof (Hb (S i)). pose proof (grows i). lia.
Qed.

(** X15.  On a page whose height never shrinks and never passes a bound
    [B], the scroll loop of the discovery ends: after at most
    [B - height 0 + 1] scrolls, at the first scroll that leaves the height
    as it was. *)
Theorem scroll_loop_ends B :
  (forall k, height k <= B) ->
  exists k,
    (1 <= k <= Z.to_nat (B - height 0) + 1)%nat /\
    (forall fuel, (Z.to_nat (B - height 0) + 1 <= fuel)%nat ->
       scroll_to_bottom fuel height 0 (height 0) = Some k) /\
    height k = height (k - 1) /\
    forall j, (1 <= j < k)%nat -> height j <> height (j - 1).
Proof.
  intros Hb.
  destruct (scroll_bounded B (Z.to_nat (B - height 0)) 0 Hb ltac:(lia))
    as [k Hk].
  exists k. destruct (scroll_result _ _ _ Hk) as (Hrange & Hstop & Hfirst).
  split; [lia|]. split; [|split; [done|]].
  - intros fuel Hfuel. eapply scroll_more_fuel; [|exact Hk]. lia.
  - intros j Hj. apply Hfirst. lia.
Qed.

End Heights.

End ScrollProps.

(** * The statements on concrete sites and URLs *)

Module Checks.
Import PyStr UrlParse Crawler CrawlSpec Scenarios.

Local Abbreviation accept := accept_bracketed_host.

Lemma small_site_bounded : bounded_site accept small_site small_site_urls.
Proof.
  intros u anchors doc a l n Hget Ha Hl Hn.
  unfold small_site in Hget. simpl in Hget.
  case_bool_decide; [done|]. injection Hget as <- <-.
  unfold small_site_links in Ha.
  repeat (apply elem_of_cons in Ha as [-> | Ha]);
    try (vm_compute in Hl; injection Hl as <-;
         vm_compute in Hn; injection Hn as <-;
         apply (bool_decide_unpack _); vm_compute; exact I).
  by apply elem_of_nil in Ha.
Qed.

(** ** C1 *)

(** When the seed page cannot be fetched, its URL ends in the failed set
    and in the visited set: the two sets are not disjoint. *)
Lemma failed_url_is_visited_too :
  let st := state_of (crawl_all_support_pages accept offline 5
                        (init (Some support) 1000 false)) in
  visited_urls st ∩ failed_urls st <> ∅.
Proof.
  intros st Hempty.
  assert (Some support ∈ visited_urls st ∩ failed_urls st) as Hin
    by (apply (bool_decide_unpack _); vm_compute; exact I).
  rewrite Hempty in Hin. by apply not_elem_of_empty in Hin.
Qed.

(** ** C2 *)

(** A page whose request succeeds and whose cleaned text has exactly 50
    characters, which is not shorter than 50, gets no page record. *)
Lemma fifty_characters_give_no_record :
  let st := init (Some support) 1000 false in
  let doc := plain_doc (repeat_char "a" 50) in
  http_get fifty (Some support) = Fetched [] (Ret doc) /\
  try_raises accept fifty st (Some support) = false /\
  len (clean_text (static_content doc)) = 50 /\
  page_text fifty st (Some support) doc = clean_text (static_content doc) /\
  ~ (len (page_text fifty st (Some support) doc) < 50) /\
  (scrape_page_content accept fifty st (Some support)).2 = None.
Proof. repeat split; by vm_compute. Qed.

Lemma scrape_page_content_outcomes_witness :
  let st := init (Some support) 1000 false in
  try_raises accept small_site st (Some faq) = false /\
  exists anchors doc,
    http_get small_site (Some faq) = Fetched anchors (Ret doc) /\
    failed_urls (scrape_page_content accept small_site st (Some faq)).1
      = failed_urls st /\
    (len (page_text small_site st (Some faq) doc) <= 50 ->
     (scrape_page_content accept small_site st (Some faq)).2 = None) /\
    (50 < len (page_text small_site st (Some faq) doc) ->
     exists rec,
       (scrape_page_content accept small_site st (Some faq)).2 = Some rec /\
       url rec = Some faq /\
       content rec = page_text small_site st (Some faq) doc /\
       content_length rec = len (page_text small_site st (Some faq) doc)).
Proof.
  intros st. split; [by vm_compute|].
  apply (proj1 (proj2 (CrawlProps.scrape_page_content_outcomes
                         accept small_site st (Some faq)))).
  by vm_compute.
Defined.

(** ** C3 *)

(** The same URL is a support URL for a fresh crawler and no longer one
    once it is in the visited set, or in the failed set. *)
Lemma is_support_url_changes_with_state :
  let st := init (Some support) 1000 false in
  is_support_url accept st (Some faq) = Ret true /\
  is_support_url accept (add_visited (Some faq) st) (Some faq) = Ret false /\
  is_support_url accept (add_failed (Some faq) st) (Some faq) = Ret false.
Proof. repeat split; by vm_compute. Qed.

Lemma is_support_url_depends_on_state_witness :
  let st := init (Some support) 1000 false in
  normalize_url accept (Some (faq +:+ "/")) = Ret (Some faq) /\
  urlparse accept faq
    = Ret (mkParseResult "https" "www.angelone.in" "/support/faq" "" "" "") /\
  exists b, is_support_url accept st (Some (faq +:+ "/")) = Ret b /\
    (b = true <->
     "www.angelone.in" = "www.angelone.in" /\
     starts_with "/support" "/support/faq" = true /\
     Some faq ∉ visited_urls st /\ Some faq ∉ failed_urls st).
Proof.
  intros st. split; [by vm_compute|]. split; [by vm_compute|].
  apply (UrlProps.is_support_url_depends_on_state accept st (faq +:+ "/") faq
           (mkParseResult "https" "www.angelone.in" "/support/faq" "" "" ""));
    by vm_compute.
Defined.

(** ** C4 *)

(** Interrupted after three pages were scraped and one request failed,
    [main] saves no summary, although the crawler object holds the three
    records and the failed URL. *)
Lemma interrupted_main_saves_nothing :
  exists st n,
    crawl_all_support_pages accept chain 4
      (init (Some support) 1000 false) = Interrupted st n /\
    length (scraped_data st) = 3%nat /\
    size (failed_urls st) = 1%nat /\
    main accept chain false 4 = None.
Proof.
  eexists _, _. split; [by vm_compute|]. repeat split; by vm_compute.
Qed.

Lemma interrupted_run_keeps_but_does_not_save_witness :
  let st := init (Some support) 1000 false in
  let o := crawl_loop accept chain 4 st 0 in
  length (scraped_data (state_of o)) = 3%nat /\
  size (failed_urls (state_of o)) = 1%nat /\
  interrupted o = true /\
  total_pages_scraped (crawl_info (save_data (state_of o))) = 3 /\
  failed_urls_count (crawl_info (save_data (state_of o))) = 1 /\
  main_saves o = None.
Proof.
  intros st o.
  pose proof (CrawlProps.interrupted_run_keeps_but_does_not_save
                accept chain 4 st 0) as (_ & _ & Hsum & Hmain).
  fold o in Hsum, Hmain.
  assert (length (scraped_data (state_of o)) = 3%nat) as Hl by by vm_compute.
  assert (size (failed_urls (state_of o)) = 1%nat) as Hs by by vm_compute.
  assert (interrupted o = true) as Hi by by vm_compute.
  destruct (Hsum Hl Hs) as (H1 & H2 & _).
  exact (conj Hl (conj Hs (conj Hi (conj H1 (conj H2 (Hmain Hi)))))).
Defined.

(** ** C5 *)

Lemma loop_stops_at_empty_queue_or_cap_witness :
  let st := set_queue small_site_links (init (Some support) 2 false) in
  0 <= max_pages st /\
  bounded_site accept small_site small_site_urls /\
  (exists patience, forall p, (patience <= p)%nat ->
     interrupted (crawl_loop accept small_site p st 0) = false) /\
  (forall patience st' n,
     crawl_loop accept small_site patience st 0 = Returned st' n ->
     n <= max_pages st /\
     (url_queue st' <> [] -> n = max_pages st) /\
     n = Z.of_nat (length (scraped_data st'))
         - Z.of_nat (length (scraped_data st))).
Proof.
  intros st.
  assert (0 <= max_pages st) as Hmax by by vm_compute.
  destruct (CrawlProps.loop_stops_at_empty_queue_or_cap accept small_site
              st Hmax) as (_ & Hterm & Hcap).
  exact (conj Hmax (conj small_site_bounded
           (conj (Hterm small_site_urls small_site_bounded) Hcap))).
Defined.

(** ** C6 *)

(** A URL whose path is exactly [/] loses its slash. *)
Lemma root_path_loses_its_slash :
  exists r,
    urlparse accept "https://site/" = Ret r /\ path r = "/" /\
    normalize_url accept (Some "https://site/") = Ret (Some "https://site") /\
    ends_with "/" "https://site" = false.
Proof. eexists. split; [by vm_compute|]. repeat split; by vm_compute. Qed.

Lemma normalize_url_strips_query_fragment_slash_witness :
  let base := "https://site/support/faq/" in
  base <> "" /\ contains "?" base = false /\ contains "#" base = false /\
  normalize_url accept (Some (base +:+ "?" +:+ "x=1" +:+ "#" +:+ "top"))
    = normalize_url accept (Some base) /\
  normalize_url accept (Some base) = Ret (Some "https://site/support/faq").
Proof.
  intros base.
  assert (base <> "") as H1 by done.
  assert (contains "?" base = false) as H2 by by vm_compute.
  assert (contains "#" base = false) as H3 by by vm_compute.
  destruct (UrlProps.normalize_url_strips_query_fragment_slash
              accept base H1 H2 H3) as (Hqf & _ & _ & _ & _ & Hex & _).
  exact (conj H1 (conj H2 (conj H3 (conj (Hqf "x=1" "top") Hex)))).
Defined.

(** ** C9 *)

(** [https://site//] normalises to [https://site/], and that to
    [https://site]: the second normalisation changes the result. *)
Lemma normalize_url_not_idempotent :
  exists n,
    normalize_url accept (Some "https://site//") = Ret (Some n) /\
    normalize_url accept (Some n) <> Ret (Some n).
Proof. exists "https://site/". split; by vm_compute. Qed.

Lemma normalize_url_idempotent_without_trailing_slash_witness :
  let u := "https://site/support/faq/?x=1#top" in
  let r := mkParseResult "https" "site" "/support/faq/" "" "x=1" "top" in
  let n := "https://site/support/faq" in
  urlparse accept u = Ret r /\
  scheme r <> "" /\ netloc r <> "" /\
  normalize_url accept (Some u) = Ret (Some n) /\
  ends_with "/" n = false /\
  contains ";" (last_segment n) = false /\
  normalize_url accept (Some n) = Ret (Some n).
Proof.
  intros u r n.
  assert (urlparse accept u = Ret r) as H1 by by vm_compute.
  assert (scheme r <> "") as H2 by done.
  assert (netloc r <> "") as H3 by done.
  assert (normalize_url accept (Some u) = Ret (Some n)) as H4 by by vm_compute.
  assert (ends_with "/" n = false) as H5 by by vm_compute.
  assert (contains ";" (last_segment n) = false) as H6 by by vm_compute.
  exact (conj H1 (conj H2 (conj H3 (conj H4 (conj H5 (conj H6
    (UrlProps.normalize_url_idempotent_without_trailing_slash
       accept u r n H1 H2 H3 H4 H5 H6))))))).
Defined.

(** ** C8 *)

Lemma rendered_text_replaces_short_static_text_witness :
  let st := init (Some support) 1000 true in
  let doc := plain_doc (repeat_char "a" 150) in
  let static := clean_text (static_content doc) in
  let rendered := scrape_with_selenium dynamic st (Some faq) in
  driver st = true /\
  http_get dynamic (Some faq) = Fetched [] (Ret doc) /\
  try_raises accept dynamic st (Some faq) = false /\
  len static = 150 /\ len rendered = 400 /\
  page_text dynamic st (Some faq) doc = rendered /\
  exists rec,
    (scrape_page_content accept dynamic st (Some faq)).2 = Some rec /\
    content rec = rendered /\ content_length rec = 400.
Proof.
  intros st doc static rendered.
  assert (driver st = true) as H1 by done.
  assert (http_get dynamic (Some faq) = Fetched [] (Ret doc)) as H2 by done.
  assert (try_raises accept dynamic st (Some faq) = false) as H3
    by by vm_compute.
  assert (len static = 150) as H4 by by vm_compute.
  assert (len rendered = 400) as H5 by by vm_compute.
  assert (len (clean_text (static_content doc)) < 200) as H6 by by vm_compute.
  destruct (CrawlProps.rendered_text_replaces_short_static_text
              accept dynamic st (Some faq) [] doc H1 H2 H3 H6) as [Ht Hrec].
  assert (page_text dynamic st (Some faq) doc = rendered) as Hp
    by (rewrite Ht; by vm_compute).
  exact (conj H1 (conj H2 (conj H3 (conj H4 (conj H5 (conj Hp
    (Hrec H4 H5))))))).
Defined.

(** ** C10 *)

Lemma processed_urls_are_visited_witness :
  let st := init (Some support) 1000 false in
  url_queue st = [Some support] /\
  normalize_url accept (Some support) = Ret (Some support) /\
  Some support ∈ visited_urls (loop_body accept offline st 0).1 /\
  Some support ∈ failed_urls (loop_body accept offline st 0).1.
Proof.
  intros st.
  assert (url_queue st = [Some support]) as H1 by done.
  assert (normalize_url accept (Some support) = Ret (Some support)) as H2
    by by vm_compute.
  destruct (CrawlProps.processed_urls_are_visited accept offline st 0
              (Some support) [] (Some support) H1 H2) as [Hv _].
  assert (Some support ∈ failed_urls (loop_body accept offline st 0).1) as Hf
    by (apply (bool_decide_unpack _); vm_compute; exact I).
  exact (conj H1 (conj H2 (conj Hv Hf))).
Defined.

End Checks.

(** * The further statements on concrete inputs *)

Module MoreChecks.
Import PyStr UrlParse Crawler CrawlSpec MoreSpec Scenarios MoreScenarios.

Local Abbreviation accept := accept_bracketed_host.

Lemma clean_text_lines_long_and_stripped_witness :
  clean_text three_lines <> "" /\
  Forall (fun l => 3 < len l /\ strip l = l /\ starts_nonspace l = true)
         (split "010" (clean_text three_lines)).
Proof.
  assert (clean_text three_lines <> "") as H by by vm_compute.
  exact (conj H (CleanProps.clean_text_lines_long_and_stripped three_lines H)).
Defined.

Lemma unique_queue_dedups_witness :
  let uq := [Some support; Some faq] in
  unique_queue accept messy_queue ∅ = Ret uq /\
  NoDup uq /\
  forall x, x ∈ uq <->
    is_truthy x = true /\
    exists u, u ∈ messy_queue /\ normalize_url accept u = Ret x.
Proof.
  intros uq.
  assert (unique_queue accept messy_queue ∅ = Ret uq) as H by by vm_compute.
  exact (conj H (CrawlMore.unique_queue_dedups accept messy_queue uq H)).
Defined.

Lemma small_site_anchors_parse a0 :
  a0 ∈ small_site_links ->
  exists l0 b,
    normalize_url accept a0 = Ret l0 /\
    is_support_url accept (init (Some support) 1000 false) l0 = Ret b.
Proof.
  set (st := init (Some support) 1000 false).
  set (parses := fun a =>
    match normalize_url accept a with
    | Ret l => match is_support_url accept st l with
               | Ret _ => true
               | Raise => false
               end
    | Raise => false
    end).
  assert (forallb parses small_site_links = true) as Hall
    by (vm_compute; reflexivity).
  intros Ha%list_elem_of_In.
  pose proof (proj1 (forallb_forall parses small_site_links) Hall a0 Ha) as Hp.
  unfold parses in Hp.
  destruct (normalize_url accept a0) as [l0|]; [|done].
  destruct (is_support_url accept st l0) as [b|] eqn:Hb; [|done].
  by exists l0, b.
Qed.

Lemma discovery_returns_support_links_witness :
  let st := init (Some support) 1000 false in
  let a := Some "https://www.angelone.in/support/b/" in
  let l := Some "https://www.angelone.in/support/b" in
  seed_static small_site = Some small_site_links /\
  a ∈ small_site_links /\
  normalize_url accept a = Ret l /\
  is_support_url accept st l = Ret true /\
  l ∈ discover_all_support_links accept small_site st.
Proof.
  intros st a l.
  assert (seed_static small_site = Some small_site_links) as H1 by done.
  assert (a ∈ small_site_links) as H2 by (right; left).
  assert (normalize_url accept a = Ret l) as H3 by by vm_compute.
  assert (is_support_url accept st l = Ret true) as H4 by by vm_compute.
  destruct (CrawlMore.discovery_returns_support_links accept small_site st)
    as (_ & _ & Hall).
  exact (conj H1 (conj H2 (conj H3 (conj H4
    (Hall small_site_links a l H1 small_site_anchors_parse H2 H3 H4))))).
Defined.

Lemma unparsable_anchor_fails_page_witness :
  let st := init (Some support) 1000 false in
  let a := Some "http://[::1/x" in
  http_get bad_anchor (Some support)
    = Fetched [Some faq; a] (Ret (plain_doc (repeat_char "a" 60))) /\
  a ∈ [Some faq; a] /\
  normalize_url accept a = Raise /\
  scrape_page_content accept bad_anchor st (Some support)
    = (add_failed (Some support) st, None).
Proof.
  intros st a.
  assert (http_get bad_anchor (Some support)
          = Fetched [Some faq; a] (Ret (plain_doc (repeat_char "a" 60))))
    as H1 by done.
  assert (a ∈ [Some faq; a]) as H2 by (right; left).
  assert (normalize_url accept a = Raise) as H3 by by vm_compute.
  exact (conj H1 (conj H2 (conj H3
    (CrawlMore.unparsable_anchor_fails_page accept bad_anchor st
       (Some support) _ _ a H1 H2 H3)))).
Defined.

Lemma crawl_records_well_formed_witness :
  let rec := sixty_record support in
  rec ∈ scraped_data (state_of (crawl_all_support_pages accept chain 4
                                  (init (Some support) 1000 false))) /\
  content_length rec = len (content rec) /\
  50 < len (content rec) /\
  strip (content rec) = content rec /\
  source_type rec = "support_page".
Proof.
  intros rec.
  assert (rec ∈ scraped_data (state_of (crawl_all_support_pages accept chain 4
                                          (init (Some support) 1000 false))))
    as H by (vm_compute; constructor).
  exact (conj H (CrawlMore.crawl_records_well_formed accept chain 4
                   (Some support) 1000 false rec H)).
Defined.

Lemma driver_never_loses_a_page_witness :
  let st := init (Some support) 1000 false in
  let rec := sixty_record faq in
  (scrape_page_content accept small_site (with_driver false st) (Some faq)).2
    = Some rec /\
  exists rec',
    (scrape_page_content accept small_site (with_driver true st) (Some faq)).2
      = Some rec' /\
    url rec' = url rec /\ title rec' = title rec /\
    len (content rec) <= len (content rec').
Proof.
  intros st rec.
  assert ((scrape_page_content accept small_site (with_driver false st)
             (Some faq)).2 = Some rec) as H by by vm_compute.
  exact (conj H (CrawlMore.driver_never_loses_a_page accept small_site st
                   (Some faq) rec H)).
Defined.

Lemma second_normalisation_strips_a_slash_witness :
  let u := "https://site//" in
  let r := mkParseResult "https" "site" "//" "" "" "" in
  let n := "https://site/" in
  urlparse accept u = Ret r /\ scheme r <> "" /\ netloc r <> "" /\
  normalize_url accept (Some u) = Ret (Some n) /\
  contains ";" (last_segment n) = false /\
  normalize_url accept (Some n)
  = Ret (Some (if ends_with "/" n then drop_last n else n)).
Proof.
  intros u r n.
  assert (urlparse accept u = Ret r) as H1 by by vm_compute.
  assert (scheme r <> "") as H2 by done.
  assert (netloc r <> "") as H3 by done.
  assert (normalize_url accept (Some u) = Ret (Some n)) as H4 by by vm_compute.
  assert (contains ";" (last_segment n) = false) as H5 by by vm_compute.
  exact (conj H1 (conj H2 (conj H3 (conj H4 (conj H5
    (UrlMore.second_normalisation_strips_a_slash accept u r n
       H1 H2 H3 H4 H5)))))).
Defined.

Lemma normalize_url_result_witness :
  let u := Some "https://site/a?b#c" in
  let n := Some "https://site/a" in
  normalize_url accept u = Ret n /\
  "https://site/a" <> "" /\
  contains "?" "https://site/a" = false /\
  contains "#" "https://site/a" = false /\
  existsb_chars is_unsafe_url_byte "https://site/a" = false.
Proof.
  intros u n.
  assert (normalize_url accept u = Ret n) as H by by vm_compute.
  exact (conj H (UrlMore.normalize_url_result accept u n H)).
Defined.

Lemma plain_support_url_accepted_witness :
  let st := init (Some support) 1000 false in
  let s := "https" in
  let p := "/support/faq/" in
  wf_scheme s = true /\ starts_with "/support" p = true /\
  existsb_chars is_unsafe_url_byte p = false /\
  contains "?" p = false /\ contains "#" p = false /\
  contains ";" p = false /\
  Some faq ∉ visited_urls st /\ Some faq ∉ failed_urls st /\
  normalize_url accept (Some (faq +:+ "/")) = Ret (Some faq) /\
  is_support_url accept st (Some (faq +:+ "/")) = Ret true.
Proof.
  intros st s p.
  assert (wf_scheme s = true) as H1 by done.
  assert (starts_with "/support" p = true) as H2 by done.
  assert (existsb_chars is_unsafe_url_byte p = false) as H3 by done.
  assert (contains "?" p = false) as H4 by done.
  assert (contains "#" p = false) as H5 by done.
  assert (contains ";" p = false) as H6 by done.
  assert (Some faq ∉ visited_urls st) as H7 by set_solver.
  assert (Some faq ∉ failed_urls st) as H8 by set_solver.
  exact (conj H1 (conj H2 (conj H3 (conj H4 (conj H5 (conj H6 (conj H7
    (conj H8 (UrlMore.plain_support_url_accepted accept st s p
                H1 H2 H3 H4 H5 H6 H7 H8))))))))).
Defined.

Lemma scroll_loop_ends_witness :
  (forall k, growing_page k <= growing_page (S k)) /\
  (forall k, growing_page k <= 2000) /\
  exists k,
    (1 <= k <= Z.to_nat (2000 - growing_page 0) + 1)%nat /\
    (forall fuel, (Z.to_nat (2000 - growing_page 0) + 1 <= fuel)%nat ->
       scroll_to_bottom fuel growing_page 0 (growing_page 0) = Some k) /\
    growing_page k = growing_page (k - 1) /\
    forall j, (1 <= j < k)%nat -> growing_page j <> growing_page (j - 1).
Proof.
  assert (forall k, growing_page k <= growing_page (S k)) as H1
    by (intros k; unfold growing_page; lia).
  assert (forall k, growing_page k <= 2000) as H2
    by (intros k; unfold growing_page; lia).
  exact (conj H1 (conj H2 (ScrollProps.scroll_loop_ends growing_page H1 2000 H2))).
Defined.

Lemma support_url_never_regained_witness :
  let st := init (Some support) 1000 false in
  is_support_url accept (state_of (crawl_loop accept offline 3 st 0)) (Some faq)
    = Ret true /\
  is_support_url accept st (Some faq) = Ret true.
Proof.
  intros st.
  assert (is_support_url accept (state_of (crawl_loop accept offline 3 st 0))
            (Some faq) = Ret true) as H by by vm_compute.
  exact (conj H (CrawlMore.support_url_never_regained accept offline 3 st 0
                   (Some faq) H)).
Defined.

Lemma normalize_url_ignores_scheme_case_witness :
  valid_scheme "HTTPS" = true /\
  normalize_url accept (Some ("HTTPS" +:+ ":" +:+ "//site/a/"))
  = normalize_url accept (Some ("https" +:+ ":" +:+ "//site/a/")).
Proof.
  assert (valid_scheme "HTTPS" = true) as H by done.
  exact (conj H (UrlMore.normalize_url_ignores_scheme_case accept
                   "HTTPS" "//site/a/" H)).
Defined.

Lemma normalize_url_ignores_blanks_and_breaks_witness :
  let ws := "  " in
  let u := "https://site/a" +:+ String "010" "b" in
  forallb_chars is_c0_control_or_space ws = true /\
  remove_chars is_unsafe_url_byte u <> "" /\
  normalize_url accept (Some (ws +:+ u)) = normalize_url accept (Some u) /\
  normalize_url accept (Some (remove_chars is_unsafe_url_byte u))
  = normalize_url accept (Some u).
Proof.
  intros ws u.
  assert (forallb_chars is_c0_control_or_space ws = true) as H1 by done.
  assert (remove_chars is_unsafe_url_byte u <> "") as H2 by by vm_compute.
  exact (conj H1 (conj H2
    (UrlMore.normalize_url_ignores_blanks_and_breaks accept ws u H1 H2))).
Defined.

End MoreChecks.
